(** * tracelistener: the gaia processor lifecycle and the writeback splitter

    A shallow embedding of [tracelistener/gaia_processor/processor.go]
    (module registry, [AddModule], [processorByName], [New] and the
    [lifecycle] loop) together with the writeback batch type it publishes
    and the batch splitter exercised by [TestWritebackOp_SplitStatements].

    Conventions.
    - A Go slice that the code tests against [nil] is an [option (list _)]:
      [None] is the nil slice, [Some []] an allocated slice without elements.
      Slices that are only ranged over are plain lists.
    - [uint64] block heights are [N]; the code only compares them, so no
      wrap-around arithmetic arises.
    - Go's [error] is the rendered message; [nil] is [None].
    - Channel traffic and logger calls are recorded as a trace of [Event]s,
      in program order.  The operations arriving on [writeChan] until it is
      closed are the input list of [lifecycle]. *)

From Stdlib Require Import List String Ascii ZArith NArith Bool Arith Lia Sorted.
From Stdlib.Strings Require Import Byte.
From Equations Require Import Equations.
Import ListNotations.

Open Scope string_scope.
Open Scope list_scope.

(** ** Shared types of package [tracelistener] *)

Definition error := string.

(** [models.DatabaseEntrier]: a row that can be tagged with a chain name. *)
Class DatabaseEntrier (R : Type) := {
  WithChainName : string -> R -> R
}.

(** [tracelistener.WritebackOp] *)
Record WritebackOp (R : Type) := mkWritebackOp {
  DatabaseExec : string;
  Data : option (list R)
}.
Arguments mkWritebackOp {R} _ _.
Arguments DatabaseExec {R} _.
Arguments Data {R} _.

(** [tracelistener.Operation] *)
Inductive Operation := ReadOp | WriteOp.

(** [tracelistener.TraceOperation]; the processor reads [Key] and
    [BlockHeight] only. *)
Record TraceOperation := mkTraceOperation {
  OperationKind : Operation;
  Key : list byte;
  Value : list byte;
  BlockHeight : N;
  Metadata : option (list byte)
}.

(** Rows of a batch, with the nil slice read as the empty sequence
    ([len] and [range] do not tell them apart). *)
Definition rowsOf {R} (wo : WritebackOp R) : list R :=
  match Data wo with
  | None => []
  | Some rows => rows
  end.

(** ** Observable effects *)

Inductive Event (R : Type) :=
| FlushCacheCall (i : nat)
    (* mp.FlushCache() on the module at registry position i *)
| WritebackSend (wb : list (WritebackOp R))
    (* p.writebackChan <- wb *)
| InfowNewBlock (height : N)
    (* p.l.Infow("processed new block", "height", height) *)
| ProcessCall (i : nat) (data : TraceOperation)
    (* mp.Process(data) on the module at registry position i *)
| ErrorwProcessing (err : error) (data : TraceOperation) (moduleName : string)
    (* p.l.Errorw("error while processing data", ...) *)
| InfowInitialized (processors : list string)
    (* logger.Infow("gaia Processor initialized", ...) *)
| GoLifecycle.
    (* go p.lifecycle() *)
Arguments FlushCacheCall {R} _.
Arguments WritebackSend {R} _.
Arguments InfowNewBlock {R} _.
Arguments ProcessCall {R} _ _.
Arguments ErrorwProcessing {R} _ _ _.
Arguments InfowInitialized {R} _.
Arguments GoLifecycle {R}.

(** A computation that appends to the trace and returns a value. *)
Definition Traced (R A : Type) : Type := list (Event R) * A.

Definition ret {R A} (a : A) : Traced R A := ([], a).

Definition bind {R A B} (m : Traced R A) (k : A -> Traced R B) : Traced R B :=
  (fst m ++ fst (k (snd m)), snd (k (snd m))).

Definition emit {R} (e : Event R) : Traced R unit := ([e], tt).

Definition trace {R A} (m : Traced R A) : list (Event R) := fst m.
Definition result {R A} (m : Traced R A) : A := snd m.

Declare Scope traced_scope.
Delimit Scope traced_scope with traced.
Notation "x <- m ;; k" := (bind m (fun x => k))
  (at level 61, m at next level, right associativity) : traced_scope.
Notation "' pat <- m ;; k" := (bind m (fun x => match x with pat => k end))
  (at level 61, pat pattern, m at next level, right associativity) : traced_scope.
Notation "m ;; k" := (bind m (fun _ => k))
  (at level 61, right associativity) : traced_scope.

(** ** Package [gaia_processor] *)

(** [type Module interface].  A module value is the state of the object
    behind the interface; a method with side effects returns the new state.
    [OwnsKey], [ModuleName] and [TableSchema] are observers.  The registry
    holds distinct objects, and the [Data] slices one [FlushCache] call
    returns do not share a backing array, so that tagging one batch in
    place leaves the others alone. *)
Class Module (R M : Type) := {
  FlushCache : M -> list (WritebackOp R) * M;
  OwnsKey : M -> list byte -> bool;
  Process : M -> TraceOperation -> option error * M;
  ModuleName : M -> string;
  TableSchema : M -> string
}.

(** [type Processor struct].  The logger and the two channels are the
    trace; the codec is never read by these functions. *)
Record Processor (M : Type) := mkProcessor {
  migrations : list string;
  lastHeight : N;
  chainName : string;
  moduleProcessors : list M
}.
Arguments mkProcessor {M} _ _ _ _.
Arguments migrations {M} _.
Arguments lastHeight {M} _.
Arguments chainName {M} _.
Arguments moduleProcessors {M} _.

(** The concrete processor structs of the package, in the order of the
    [switch] of [processorByName]. *)
Inductive ProcessorKind :=
| bankProcessor
| ibcConnectionsProcessor
| liquidityPoolProcessor
| liquiditySwapsProcessor
| delegationsProcessor
| ibcDenomTracesProcessor
| ibcChannelsProcessor
| authProcessor.

Definition switchCases : list ProcessorKind :=
  [ bankProcessor; ibcConnectionsProcessor; liquidityPoolProcessor;
    liquiditySwapsProcessor; delegationsProcessor; ibcDenomTracesProcessor;
    ibcChannelsProcessor; authProcessor ].

(** [config.Config]: the two fields [New] reads, [cfg.ChainName] and
    [cfg.Gaia.ProcessorsEnabled]. *)
Record Config := mkConfig {
  ChainName : string;
  ProcessorsEnabled : option (list string)
}.

(** The processor structs are declared in other files of the package:
    [zeroValue k] is [&kProcessor{}], [withEmptyCaches k] the literal
    built by [processorByName] (every cache an empty map). *)
Class ProcessorStructs (M : Type) := {
  zeroValue : ProcessorKind -> M;
  withEmptyCaches : ProcessorKind -> M
}.

Section Processor.

Context {R M : Type} `{DatabaseEntrier R} `{Module R M} `{ProcessorStructs M}.


(** *** AddModule *)

(** The [for _, em := range p.moduleProcessors] loop, [true] when it
    leaves through the early [return]. *)
Fixpoint nameRegistered (mn : string) (ems : list M) : bool :=
  match ems with
  | [] => false
  | em :: rest =>
      if String.eqb (ModuleName em) mn then true
      else nameRegistered mn rest
  end.

Definition AddModule (p : Processor M) (m : M) : option error * Processor M :=
  let mn := ModuleName m in
  if nameRegistered mn (moduleProcessors p) then
    (Some ("cannot add module " ++ mn ++ " more than one time")%string, p)
  else
    (None,
     mkProcessor (migrations p) (lastHeight p) (chainName p)
                 (moduleProcessors p ++ [m])).

(** *** processorByName *)

(** Go tries the [case] expressions top to bottom and takes [default]
    when none equals the tag. *)
Definition processorByName (name : string) : M + error :=
  match find (fun k => String.eqb name (ModuleName (zeroValue k))) switchCases with
  | Some k => inl (withEmptyCaches k)
  | None => inr ("unkonwn Processor " ++ name)%string
  end.

(** *** New *)

Definition defaultProcessors : list string := ["bank"; "delegations"; "auth"].

Definition enabledProcessors (cfg : Config) : list string :=
  match ProcessorsEnabled cfg with
  | None => defaultProcessors
  | Some eps => eps
  end.

(** The [for _, ep := range c.ProcessorsEnabled] loop over the
    accumulators [mp] and [tableSchemas]. *)
Fixpoint collectProcessors (eps : list string) (mp : list M)
         (tableSchemas : list string) : (list M * list string) + error :=
  match eps with
  | [] => inl (mp, tableSchemas)
  | ep :: rest =>
      match processorByName ep with
      | inr err => inr err
      | inl p =>
          collectProcessors rest (mp ++ [p]) (tableSchemas ++ [TableSchema p])
      end
  end.

(** [New] over the package-level singleton [p]: it returns the new value
    of the singleton and the error; with no error the caller holds [&p]. *)
Definition New (singleton : Processor M) (cfg : Config)
  : Traced R (Processor M * option error) :=
  match collectProcessors (enabledProcessors cfg) [] [] with
  | inr err => ret (singleton, Some err)
  | inl (mp, tableSchemas) =>
      (emit (InfowInitialized (enabledProcessors cfg)) ;;
       let p := mkProcessor tableSchemas 0%N (ChainName cfg) mp in
       emit GoLifecycle ;;
       ret (p, None))%traced
  end.

Definition DatabaseMigrations (p : Processor M) : list string := migrations p.

(** *** lifecycle *)

(** [setAt i x l] is [l[i] = x] for [i < len(l)]. *)
Definition setAt (i : nat) (x : R) (l : list R) : list R :=
  firstn i l ++ x :: skipn (S i) l.

(** [for i := 0; i < len(entry.Data); i++ { entry.Data[i] = ... }];
    [todo] bounds the iterations still to run. *)
Fixpoint stampLoop (cn : string) (todo i : nat) (data : list R) : list R :=
  match todo with
  | 0 => data
  | S todo' =>
      match nth_error data i with
      | None => data
      | Some row => stampLoop cn todo' (S i) (setAt i (WithChainName cn row) data)
      end
  end.

Definition stampRows (cn : string) (data : list R) : list R :=
  stampLoop cn (List.length data) 0 data.

(** [for _, entry := range cd] with the accumulator [wb]. *)
Fixpoint collectEntries (cn : string) (cd : list (WritebackOp R))
         (wb : list (WritebackOp R)) : list (WritebackOp R) :=
  match cd with
  | [] => wb
  | entry :: rest =>
      match Data entry with
      | None => collectEntries cn rest wb
      | Some rows =>
          collectEntries cn rest
            (wb ++ [mkWritebackOp (DatabaseExec entry) (Some (stampRows cn rows))])
      end
  end.

(** The flush loop over the registry, from position [i] on. *)
Fixpoint flushModules (cn : string) (i : nat) (mps : list M)
         (wb : list (WritebackOp R)) : Traced R (list M * list (WritebackOp R)) :=
  match mps with
  | [] => ret ([], wb)
  | mp :: rest =>
      (emit (FlushCacheCall i) ;;
       let (cd, mp') := FlushCache mp in
       ' (rest', wb') <- flushModules cn (S i) rest (collectEntries cn cd wb) ;;
       ret (mp' :: rest', wb'))%traced
  end.

(** The dispatch loop over the registry, from position [i] on. *)
Fixpoint dispatch (data : TraceOperation) (i : nat) (mps : list M)
  : Traced R (list M) :=
  match mps with
  | [] => ret []
  | mp :: rest =>
      if negb (OwnsKey mp (Key data)) then
        (rest' <- dispatch data (S i) rest ;;
         ret (mp :: rest'))%traced
      else
        (emit (ProcessCall i data) ;;
         let (err, mp') := Process mp data in
         match err with
         | Some e => emit (ErrorwProcessing e data (ModuleName mp'))
         | None => ret tt
         end ;;
         rest' <- dispatch data (S i) rest ;;
         ret (mp' :: rest'))%traced
  end.

Definition heightChanged (p : Processor M) (data : TraceOperation) : bool :=
  negb (N.eqb (BlockHeight data) (lastHeight p))
  && negb (N.eqb (BlockHeight data) 0%N).

(** The [if] at the head of the loop body. *)
Definition flushOnNewHeight (p : Processor M) (data : TraceOperation)
  : Traced R (Processor M) :=
  if heightChanged p data then
    (' (mps, wb) <- flushModules (chainName p) 0 (moduleProcessors p) [] ;;
     emit (WritebackSend wb) ;;
     emit (InfowNewBlock (lastHeight p)) ;;
     ret (mkProcessor (migrations p) (BlockHeight data) (chainName p) mps))%traced
  else ret p.

(** One iteration of [for data := range p.writeChan]. *)
Definition handle (p : Processor M) (data : TraceOperation)
  : Traced R (Processor M) :=
  (p1 <- flushOnNewHeight p data ;;
   mps <- dispatch data 0 (moduleProcessors p1) ;;
   ret (mkProcessor (migrations p1) (lastHeight p1) (chainName p1) mps))%traced.

(** The loop, over the operations received before the channel closes. *)
Fixpoint lifecycle (p : Processor M) (ops : list TraceOperation)
  : Traced R (Processor M) :=
  match ops with
  | [] => ret p
  | data :: rest =>
      (p' <- handle p data ;;
       lifecycle p' rest)%traced
  end.

End Processor.

(** ** The writeback batch splitter *)

Section Splitter.

Context {R : Type}.

(** Modelled from the spec: the consecutive grouping step of
    [WritebackOp.SplitStatements], whose body is not part of the sources
    at hand (its test [TestWritebackOp_SplitStatements] is).
    Rows are cut into consecutive groups of [k] rows, the last group
    taking what is left.  No group can be formed with [k = 0]; the
    splitter never asks for it. *)
Equations? groupRows (k : nat) (rows : list R) : list (list R)
  by wf (List.length rows) lt :=
  groupRows 0 _ := [];
  groupRows (S n) [] := [];
  groupRows (S n) (r :: rest) :=
    firstn (S n) (r :: rest) :: groupRows (S n) (skipn (S n) (r :: rest)).
Proof. simpl. rewrite length_skipn. lia. Qed.

(** Modelled from the spec: [WritebackOp.SplitStatements(limit)], whose
    body is not part of the sources at hand.  [f] is the number of bound parameters one
    row of the batch's row type renders (at least one column), [limit] the
    ceiling of bound parameters per statement.  [None] is the abort
    demanded when a single row does not fit.  With [limit] an exact
    multiple of [f] the rows go out in groups of [limit / f]; with a
    remainder each row goes out alone.  Every output keeps the statement
    template. *)
Definition SplitStatements (f : positive) (limit : Z) (wo : WritebackOp R)
  : option (list (WritebackOp R)) :=
  if (limit <? Z.pos f)%Z then None
  else
    let rowsPerStatement := (limit / Z.pos f)%Z in
    let batch := fun rows => mkWritebackOp (DatabaseExec wo) (Some rows) in
    if (limit mod Z.pos f =? 0)%Z then
      Some (map batch (groupRows (Z.to_nat rowsPerStatement) (rowsOf wo)))
    else
      Some (map (fun row => batch [row]) (rowsOf wo)).

End Splitter.

(** ** Fixtures taken from the tests *)

(** [testDatabaseEntrier] of the package tests. *)
Record testDatabaseEntrier := mkTestEntrier { cn : string }.

#[export] Instance testDatabaseEntrier_entrier : DatabaseEntrier testDatabaseEntrier :=
  {| WithChainName := fun name _ => mkTestEntrier name |}.

(** [models.AuthRow] as the splitter test builds it: four columns. *)
Record AuthRow := mkAuthRow {
  AuthChainName : string;
  Address : string;
  SequenceNumber : N;
  AccountNumber : N
}.

Definition authRowFields : positive := 4%positive.

Definition testAuthRow : AuthRow := mkAuthRow "chain" "address" 1 1.

Definition testNeedle (exec : string) : WritebackOp AuthRow :=
  mkWritebackOp exec (Some [testAuthRow; testAuthRow; testAuthRow; testAuthRow]).

(** A module double in the style of the package tests: it hands out a
    prepared flush result once, owns the keys under a prefix, records the
    operations it processed and fails on demand. *)
Record stubModule := mkStub {
  stubName : string;
  stubSchema : string;
  stubPrefix : list byte;
  stubPending : list (WritebackOp testDatabaseEntrier);
  stubFails : bool;
  stubSeen : list TraceOperation
}.

Fixpoint hasPrefix (prefix key : list byte) : bool :=
  match prefix, key with
  | [], _ => true
  | _ :: _, [] => false
  | b :: prefix', c :: key' => Byte.eqb b c && hasPrefix prefix' key'
  end.

#[export] Instance stubModule_module : Module testDatabaseEntrier stubModule :=
  {| FlushCache := fun m =>
       (stubPending m,
        mkStub (stubName m) (stubSchema m) (stubPrefix m) [] (stubFails m) (stubSeen m));
     OwnsKey := fun m key => hasPrefix (stubPrefix m) key;
     Process := fun m data =>
       if stubFails m then (Some "cannot decode"%string, m)
       else (None,
             mkStub (stubName m) (stubSchema m) (stubPrefix m) (stubPending m)
                    (stubFails m) (stubSeen m ++ [data]));
     ModuleName := stubName;
     TableSchema := stubSchema |}.

Definition stubKindName (k : ProcessorKind) : string :=
  match k with
  | bankProcessor => "bank"
  | ibcConnectionsProcessor => "ibc_connections"
  | liquidityPoolProcessor => "liquidity_pool"
  | liquiditySwapsProcessor => "liquidity_swaps"
  | delegationsProcessor => "delegations"
  | ibcDenomTracesProcessor => "ibc_denom_traces"
  | ibcChannelsProcessor => "ibc_channels"
  | authProcessor => "auth"
  end.

Definition stubOfKind (k : ProcessorKind) : stubModule :=
  mkStub (stubKindName k) ("CREATE TABLE IF NOT EXISTS " ++ stubKindName k)%string
         [] [] false [].

#[export] Instance stubModule_structs : ProcessorStructs stubModule :=
  {| zeroValue := stubOfKind; withEmptyCaches := stubOfKind |}.

Definition opAt (height : N) (key : list byte) : TraceOperation :=
  mkTraceOperation WriteOp key [] height None.

Definition emptyProcessor : Processor stubModule := mkProcessor [] 0%N "cosmos-hub" [].

Definition balanceKey : list byte := [x02; x61; x62].
Definition accountKey : list byte := [x01; x61; x62].

(** A flush result with two rows, one with an allocated slice without rows,
    one with a nil slice. *)
Definition twoBalances : WritebackOp testDatabaseEntrier :=
  mkWritebackOp "UPSERT balances" (Some [mkTestEntrier ""; mkTestEntrier "old"]).
Definition noRows : WritebackOp testDatabaseEntrier :=
  mkWritebackOp "DELETE balances" (Some []).
Definition nilData : WritebackOp testDatabaseEntrier :=
  mkWritebackOp "UPSERT auth" None.

Definition bankStub : stubModule :=
  mkStub "bank" "CREATE TABLE IF NOT EXISTS balances" [x02] [twoBalances; nilData] false [].
Definition failingStub : stubModule :=
  mkStub "auth" "CREATE TABLE IF NOT EXISTS auth" [] [] true [].
Definition delegationsStub : stubModule :=
  mkStub "delegations" "CREATE TABLE IF NOT EXISTS delegations" [x02] [noRows] false [].

(** A processor at height 1 with a failing module registered first. *)
Definition testProcessor : Processor stubModule :=
  mkProcessor [] 1%N "cosmos-hub" [failingStub; bankStub].

(** A processor whose only module flushes an allocated slice without rows. *)
Definition draining : Processor stubModule :=
  mkProcessor [] 1%N "cosmos-hub" [delegationsStub].

(** ** Vocabulary of the statements *)

Section Vocabulary.

Context {R M : Type} `{DatabaseEntrier R} `{Module R M}.

(** A batch carries row data when its [Data] slice is not nil. *)
Definition hasData (entry : WritebackOp R) : bool :=
  match Data entry with
  | None => false
  | Some _ => true
  end.

(** A batch with every row tagged with the chain name. *)
Definition stampEntry (cn : string) (entry : WritebackOp R) : WritebackOp R :=
  mkWritebackOp (DatabaseExec entry)
                (option_map (map (WithChainName cn)) (Data entry)).

(** What the modules of a registry hand out when flushed one after the
    other, and the registry left behind. *)
Definition flushResults (mps : list M) : list (WritebackOp R) :=
  flat_map (fun mp => fst (FlushCache mp)) mps.

Definition flushed (mps : list M) : list M :=
  map (fun mp => snd (FlushCache mp)) mps.

(** Registry positions, counted from [i], of the modules owning [key]. *)
Fixpoint ownersFrom (i : nat) (key : list byte) (mps : list M) : list nat :=
  match mps with
  | [] => []
  | mp :: rest =>
      if OwnsKey mp key then i :: ownersFrom (S i) key rest
      else ownersFrom (S i) key rest
  end.

(** The registry after every owner of the key has processed [data]. *)
Definition processedBy (data : TraceOperation) (mps : list M) : list M :=
  map (fun mp => if OwnsKey mp (Key data) then snd (Process mp data) else mp) mps.

(** The [Process] calls of a trace, in order. *)
Fixpoint processCalls (t : list (Event R)) : list (nat * TraceOperation) :=
  match t with
  | [] => []
  | ProcessCall i data :: t' => (i, data) :: processCalls t'
  | _ :: t' => processCalls t'
  end.

(** The batches sent on the writeback channel, in order. *)
Fixpoint sentBatches (t : list (Event R)) : list (list (WritebackOp R)) :=
  match t with
  | [] => []
  | WritebackSend wb :: t' => wb :: sentBatches t'
  | _ :: t' => sentBatches t'
  end.

(** The [FlushCache] calls of a trace, in order. *)
Fixpoint flushCalls (t : list (Event R)) : list nat :=
  match t with
  | [] => []
  | FlushCacheCall i :: t' => i :: flushCalls t'
  | _ :: t' => flushCalls t'
  end.

Context `{ProcessorStructs M}.

(** The name is the [ModuleName] of one of the processor structs. *)
Definition knownName (name : string) : Prop :=
  exists k, ModuleName (zeroValue k) = name.

(** A registry built name by name from the enabled list. *)
Definition builtFrom (names : list string) (mps : list M) : Prop :=
  Forall2 (fun name mp =>
             exists k, ModuleName (zeroValue k) = name /\ mp = withEmptyCaches k)
          names mps.

End Vocabulary.

(** The watermark after a sequence of heights, started at [h]. *)
Fixpoint watermark (h : N) (heights : list N) : N :=
  match heights with
  | [] => h
  | x :: rest =>
      watermark (if negb (N.eqb x h) && negb (N.eqb x 0) then x else h) rest
  end.

(** The number of height transitions in a sequence of heights. *)
Fixpoint transitions (h : N) (heights : list N) : nat :=
  match heights with
  | [] => 0
  | x :: rest =>
      if negb (N.eqb x h) && negb (N.eqb x 0) then S (transitions x rest)
      else transitions h rest
  end.

(** The nonzero heights of the sequence never fall below the height [h]
    reached before them. *)
Fixpoint ascending (h : N) (heights : list N) : bool :=
  match heights with
  | [] => true
  | x :: rest =>
      if N.eqb x 0 then ascending h rest
      else N.leb h x && ascending x rest
  end.

(** The least number of groups of [b] rows that hold [a] rows. *)
Definition ceilDiv (a b : nat) : nat := (a + (b - 1)) / b.

(** The most recent nonzero height of a sequence, [h] when there is none. *)
Definition lastNonzero (h : N) (heights : list N) : N :=
  last (filter (fun x => negb (N.eqb x 0)) heights) h.



(** ** Package [tables]: the generated statements of the balances table *)

Module tables.

Definition newline : string := String "010"%char EmptyString.
Definition tabulation : string := String "009"%char EmptyString.

(** The start of a line of the raw string literals: a line break and the
    two tabs of the indentation. *)
Definition indent : string := (newline ++ tabulation ++ tabulation)%string.

(** The end of the raw string literals: a line break and one tab. *)
Definition closing : string := (newline ++ tabulation)%string.

(** [fmt.Sprintf(format, arg)] for a format with a single [%s] verb, given
    as the text before and the text after the verb: a string argument is
    copied as it is. *)
Definition Sprintf (before after arg : string) : string :=
  (before ++ arg ++ after)%string.

Record BalancesTable := mkBalancesTable { tableName : string }.

Definition NewBalancesTable (name : string) : BalancesTable :=
  mkBalancesTable name.

Definition CreateTable (r : BalancesTable) : string :=
  Sprintf (indent ++ "CREATE TABLE IF NOT EXISTS ")%string
          (indent ++ "(id serial PRIMARY KEY, height integer NOT NULL, delete_height integer, chain_name text NOT NULL, address text NOT NULL, amount text NOT NULL, denom text NOT NULL, UNIQUE (chain_name, address, denom))"
           ++ closing)%string
          (tableName r).

Definition Insert (r : BalancesTable) : string :=
  Sprintf (indent ++ "INSERT INTO ")%string
          (" (height, chain_name, address, amount, denom)"
           ++ indent ++ "VALUES (:height, :chain_name, :address, :amount, :denom)"
           ++ closing)%string
          (tableName r).

Definition Upsert (r : BalancesTable) : string :=
  Sprintf (indent ++ "INSERT INTO ")%string
          (" (height, chain_name, address, amount, denom)"
           ++ indent ++ "VALUES (:height, :chain_name, :address, :amount, :denom)"
           ++ indent ++ "ON CONFLICT (chain_name, address, denom)"
           ++ indent ++ "DO UPDATE"
           ++ indent ++ "SET height = EXCLUDED.height, chain_name = EXCLUDED.chain_name, address = EXCLUDED.address, amount = EXCLUDED.amount, denom = EXCLUDED.denom"
           ++ closing)%string
          (tableName r).

Definition Delete (r : BalancesTable) : string :=
  Sprintf (indent ++ "DELETE FROM ")%string
          (indent ++ "WHERE chain_name=:chain_name AND address=:address AND denom=:denom"
           ++ closing)%string
          (tableName r).

End tables.

(** * Properties *)

(** ** Registry: AddModule *)

Section Registry.

Context {R M : Type} {HM : Module R M}.

Lemma nameRegistered_true (mn : string) (ems : list M) :
  nameRegistered mn ems = true <->
  exists em, In em ems /\ ModuleName em = mn.
Proof.
  induction ems as [|em rest IH]; simpl.
  - split; [discriminate | intros [em [[] _]]].
  - destruct (String.eqb_spec (ModuleName em) mn) as [Heq|Hne].
    + split; [intros _; exists em; auto | reflexivity].
    + rewrite IH. split.
      * intros [em' [Hin Hn]]. exists em'. auto.
      * intros [em' [[->|Hin] Hn]]; [contradiction | exists em'; auto].
Qed.

Lemma nameRegistered_false (mn : string) (ems : list M) :
  nameRegistered mn ems = false <->
  forall em, In em ems -> ModuleName em <> mn.
Proof.
  split.
  - intros Hf em Hin Hn.
    assert (nameRegistered mn ems = true) as Ht
      by (apply nameRegistered_true; exists em; auto).
    congruence.
  - intros Hall. destruct (nameRegistered mn ems) eqn:E; [|reflexivity].
    apply nameRegistered_true in E. destruct E as [em [Hin Hn]].
    exfalso. exact (Hall em Hin Hn).
Qed.

(** C7. [AddModule m] returns an error and leaves the processor (hence
    the registry) as it was when a registered module has the name of [m];
    when no registered module has that name it returns no error and the
    registry is the old one with [m] appended, the other fields kept. *)
Theorem AddModule_rejects_duplicate_else_appends (p : Processor M) (m : M) :
  ((exists em, In em (moduleProcessors p) /\ ModuleName em = ModuleName m) ->
     (exists err, fst (AddModule p m) = Some err) /\ snd (AddModule p m) = p)
  /\
  ((forall em, In em (moduleProcessors p) -> ModuleName em <> ModuleName m) ->
     fst (AddModule p m) = None
     /\ moduleProcessors (snd (AddModule p m)) = moduleProcessors p ++ [m]
     /\ migrations (snd (AddModule p m)) = migrations p
     /\ lastHeight (snd (AddModule p m)) = lastHeight p
     /\ chainName (snd (AddModule p m)) = chainName p).
Proof.
  unfold AddModule. split.
  - intros Hdup. apply nameRegistered_true in Hdup. rewrite Hdup. simpl.
    split; [eexists; reflexivity | reflexivity].
  - intros Hfresh. apply nameRegistered_false in Hfresh. rewrite Hfresh.
    simpl. repeat split.
Qed.

End Registry.

(** ** Construction: processorByName and New *)

Section Construction.

Context {R M : Type} {HR : DatabaseEntrier R} {HM : Module R M}
        {HS : ProcessorStructs M}.

Lemma switchCases_complete (k : ProcessorKind) : In k switchCases.
Proof. destruct k; simpl; tauto. Qed.

Lemma processorByName_known (name : string) :
  knownName name ->
  exists k, ModuleName (zeroValue k) = name
            /\ processorByName name = inl (withEmptyCaches k).
Proof.
  intros [k Hk]. unfold processorByName.
  destruct (find _ switchCases) as [k'|] eqn:E.
  - apply find_some in E. destruct E as [_ E].
    apply String.eqb_eq in E. exists k'. auto.
  - exfalso.
    pose proof (find_none _ _ E k (switchCases_complete k)) as Hn.
    simpl in Hn. rewrite <- Hk, String.eqb_refl in Hn. discriminate.
Qed.

Lemma processorByName_unknown (name : string) :
  ~ knownName name ->
  processorByName name = inr ("unkonwn Processor " ++ name)%string.
Proof.
  intros Hu. unfold processorByName.
  destruct (find _ switchCases) as [k'|] eqn:E; [|reflexivity].
  apply find_some in E. destruct E as [_ E]. apply String.eqb_eq in E.
  exfalso. apply Hu. exists k'. auto.
Qed.

Lemma knownName_dec (name : string) : {knownName name} + {~ knownName name}.
Proof.
  destruct (find (fun k => String.eqb name (ModuleName (zeroValue k))) switchCases)
    as [k|] eqn:E.
  - left. apply find_some in E. destruct E as [_ E].
    apply String.eqb_eq in E. exists k. auto.
  - right. intros [k Hk].
    pose proof (find_none _ _ E k (switchCases_complete k)) as Hn.
    simpl in Hn. rewrite <- Hk, String.eqb_refl in Hn. discriminate.
Qed.

Lemma collectProcessors_all_known (eps : list string) :
  (forall name, In name eps -> knownName name) ->
  forall mp tableSchemas,
  exists mps,
    builtFrom eps mps
    /\ collectProcessors eps mp tableSchemas
       = inl (mp ++ mps, tableSchemas ++ map TableSchema mps).
Proof.
  induction eps as [|ep rest IH]; intros Hall mp ts; simpl.
  - exists []. split; [constructor | now rewrite !app_nil_r].
  - destruct (processorByName_known ep (Hall ep (or_introl eq_refl)))
      as [k [Hk Hp]].
    rewrite Hp.
    destruct (IH (fun n Hn => Hall n (or_intror Hn))
                 (mp ++ [withEmptyCaches k])
                 (ts ++ [TableSchema (withEmptyCaches k)])) as [mps [Hb Hc]].
    exists (withEmptyCaches k :: mps). split.
    + constructor; [exists k; auto | exact Hb].
    + rewrite Hc. simpl. now rewrite <- !app_assoc.
Qed.

Lemma collectProcessors_some_unknown (eps : list string) :
  (exists name, In name eps /\ ~ knownName name) ->
  forall mp tableSchemas,
  exists name,
    In name eps /\ ~ knownName name
    /\ collectProcessors eps mp tableSchemas
       = inr ("unkonwn Processor " ++ name)%string.
Proof.
  induction eps as [|ep rest IH]; intros [bad [Hin Hbad]] mp ts; simpl.
  - destruct Hin.
  - destruct (knownName_dec ep) as [Hk|Hu].
    + destruct (processorByName_known ep Hk) as [k [_ Hp]]. rewrite Hp.
      destruct Hin as [->|Hin]; [contradiction|].
      destruct (IH (ex_intro _ bad (conj Hin Hbad))
                   (mp ++ [withEmptyCaches k])
                   (ts ++ [TableSchema (withEmptyCaches k)]))
        as [name [Hn [Hu Hc]]].
      exists name. auto.
    + rewrite (processorByName_unknown ep Hu). exists ep. auto.
Qed.

(** C9. [New] reads the enabled names from the configuration, taking
    bank, delegations, auth when the list is nil.  When every name is
    known it builds the registry name by name in that order, collects the
    table schema of each built module, one per name and in the same
    order, into the migrations, starts the lifecycle once and returns no
    error.  When some name is unknown it returns an error, leaves the
    singleton alone and starts nothing. *)
Theorem New_builds_registry_and_migrations
        (singleton : Processor M) (cfg : Config) (names : list string) :
  names = match ProcessorsEnabled cfg with
          | None => ["bank"; "delegations"; "auth"]
          | Some eps => eps
          end ->
  ((forall name, In name names -> knownName name) ->
     exists p,
       result (New (R:=R) singleton cfg) = (p, None)
       /\ builtFrom names (moduleProcessors p)
       /\ DatabaseMigrations p = map TableSchema (moduleProcessors p)
       /\ List.length (DatabaseMigrations p) = List.length names
       /\ chainName p = ChainName cfg
       /\ trace (New (R:=R) singleton cfg) = [InfowInitialized names; GoLifecycle])
  /\
  ((exists name, In name names /\ ~ knownName name) ->
     exists err,
       result (New (R:=R) singleton cfg) = (singleton, Some err)
       /\ trace (New (R:=R) singleton cfg) = []).
Proof.
  intros Hnames.
  assert (enabledProcessors cfg = names) as He
    by (unfold enabledProcessors, defaultProcessors; now subst names).
  unfold New. rewrite He. split.
  - intros Hall.
    destruct (collectProcessors_all_known names Hall [] []) as [mps [Hb Hc]].
    rewrite Hc. simpl. eexists. split; [reflexivity|]. simpl.
    unfold DatabaseMigrations. simpl. repeat split; auto.
    rewrite length_map. symmetry. exact (Forall2_length Hb).
  - intros Hbad.
    destruct (collectProcessors_some_unknown names Hbad [] [])
      as [name [_ [_ Hc]]].
    rewrite Hc. eexists. split; reflexivity.
Qed.

End Construction.

(** ** The flush at a height boundary *)

Section Flush.

Context {R M : Type} {HR : DatabaseEntrier R} {HM : Module R M}.

Lemma setAt_middle (pre post : list R) (old new : R) :
  setAt (List.length pre) new (pre ++ old :: post) = pre ++ new :: post.
Proof.
  unfold setAt. induction pre as [|x pre IH]; simpl.
  - reflexivity.
  - f_equal. exact IH.
Qed.

Lemma stampLoop_from (cn : string) (post pre : list R) :
  stampLoop cn (List.length post) (List.length pre) (pre ++ post)
  = pre ++ map (WithChainName cn) post.
Proof.
  revert pre. induction post as [|row post IH]; intros pre; simpl.
  - reflexivity.
  - rewrite nth_error_app2, Nat.sub_diag by lia. simpl.
    rewrite setAt_middle.
    specialize (IH (pre ++ [WithChainName cn row])).
    rewrite length_app in IH. simpl in IH. rewrite Nat.add_1_r in IH.
    rewrite <- !app_assoc in IH. simpl in IH. exact IH.
Qed.

(** The index loop rewrites every row and nothing else. *)
Lemma stampRows_map (cn : string) (rows : list R) :
  stampRows cn rows = map (WithChainName cn) rows.
Proof. exact (stampLoop_from cn rows []). Qed.

Lemma collectEntries_published (cn : string) (cd wb : list (WritebackOp R)) :
  collectEntries cn cd wb = wb ++ map (stampEntry cn) (filter hasData cd).
Proof.
  revert wb. induction cd as [|entry rest IH]; intros wb; simpl.
  - now rewrite app_nil_r.
  - unfold hasData at 1. destruct (Data entry) as [rows|] eqn:E.
    + rewrite IH, <- app_assoc. simpl. unfold stampEntry at 2.
      rewrite E. simpl. now rewrite stampRows_map.
    + apply IH.
Qed.

Lemma flushModules_trace (cn : string) (mps : list M) :
  forall i wb,
    trace (flushModules cn i mps wb)
    = map FlushCacheCall (seq i (List.length mps)).
Proof.
  unfold trace.
  induction mps as [|mp rest IH]; intros i wb; cbn [flushModules].
  - reflexivity.
  - destruct (FlushCache mp) as [cd mp'].
    unfold bind, emit. cbn [fst snd app List.length seq map]. f_equal.
    rewrite IH.
    destruct (snd (flushModules cn (S i) rest (collectEntries cn cd wb))).
    unfold ret. cbn [fst]. now rewrite app_nil_r.
Qed.

Lemma flushModules_result (cn : string) (mps : list M) :
  forall i wb,
    result (flushModules cn i mps wb)
    = (flushed mps,
       wb ++ map (stampEntry cn) (filter hasData (flushResults mps))).
Proof.
  unfold result.
  induction mps as [|mp rest IH]; intros i wb; cbn [flushModules].
  - unfold ret. simpl. now rewrite app_nil_r.
  - unfold flushed, flushResults in *. cbn [map flat_map].
    destruct (FlushCache mp) as [cd mp'].
    unfold bind, emit. cbn [fst snd].
    rewrite IH. unfold ret. cbn [snd].
    rewrite collectEntries_published, filter_app, map_app, app_assoc.
    reflexivity.
Qed.

End Flush.

(** ** Reading traces *)

Section TraceReading.

Context {R M : Type} {HR : DatabaseEntrier R} {HM : Module R M}.

Lemma processCalls_app (t1 t2 : list (Event R)) :
  processCalls (t1 ++ t2) = processCalls t1 ++ processCalls t2.
Proof.
  induction t1 as [|e t1 IH]; simpl; [reflexivity|].
  destruct e; simpl; rewrite IH; reflexivity.
Qed.

Lemma sentBatches_app (t1 t2 : list (Event R)) :
  sentBatches (t1 ++ t2) = sentBatches t1 ++ sentBatches t2.
Proof.
  induction t1 as [|e t1 IH]; simpl; [reflexivity|].
  destruct e; simpl; rewrite IH; reflexivity.
Qed.

Lemma processCalls_flushes (l : list nat) :
  processCalls (R:=R) (map FlushCacheCall l) = [].
Proof. induction l as [|i l IH]; simpl; auto. Qed.

Lemma sentBatches_flushes (l : list nat) :
  sentBatches (R:=R) (map FlushCacheCall l) = [].
Proof. induction l as [|i l IH]; simpl; auto. Qed.

Lemma sentBatches_in (t : list (Event R)) (wb : list (WritebackOp R)) :
  In (WritebackSend wb) t <-> In wb (sentBatches t).
Proof.
  induction t as [|e t IH]; simpl; [tauto|].
  destruct e; simpl; rewrite <- IH;
    (split; [intros [Heq|Hin]; [try discriminate|] | ]); auto.
  - inversion Heq. auto.
  - intros [->|Hin]; auto.
Qed.

Lemma processCalls_in (t : list (Event R)) (i : nat) (data : TraceOperation) :
  In (ProcessCall i data) t <-> In (i, data) (processCalls t).
Proof.
  induction t as [|e t IH]; simpl; [tauto|].
  destruct e; simpl; rewrite <- IH;
    (split; [intros [Heq|Hin]; [try discriminate|] | ]); auto.
  - inversion Heq. auto.
  - intros [Heq|Hin]; auto. inversion Heq. auto.
Qed.

(** *** The dispatch loop *)

Lemma dispatch_result (data : TraceOperation) (mps : list M) :
  forall i, result (dispatch data i mps) = processedBy data mps.
Proof.
  unfold result, processedBy.
  induction mps as [|mp rest IH]; intros i; cbn [dispatch map].
  - reflexivity.
  - destruct (OwnsKey mp (Key data)); cbn [negb].
    + destruct (Process mp data) as [err mp']. unfold bind, ret.
      cbn [fst snd]. now rewrite IH.
    + unfold bind, ret. cbn [snd]. now rewrite IH.
Qed.

Lemma dispatch_processCalls (data : TraceOperation) (mps : list M) :
  forall i,
    processCalls (trace (dispatch data i mps))
    = map (fun j => (j, data)) (ownersFrom i (Key data) mps).
Proof.
  unfold trace.
  induction mps as [|mp rest IH]; intros i; cbn [dispatch ownersFrom].
  - reflexivity.
  - destruct (OwnsKey mp (Key data)); cbn [negb].
    + destruct (Process mp data) as [[e|] mp']; unfold bind, emit, ret;
        cbn [fst snd app]; rewrite ?app_nil_r; cbn [processCalls map];
        now rewrite IH.
    + unfold bind, ret. cbn [fst]. rewrite app_nil_r. apply IH.
Qed.

Lemma dispatch_sentBatches (data : TraceOperation) (mps : list M) :
  forall i, sentBatches (trace (dispatch data i mps)) = [].
Proof.
  unfold trace.
  induction mps as [|mp rest IH]; intros i; cbn [dispatch].
  - reflexivity.
  - destruct (OwnsKey mp (Key data)); cbn [negb].
    + destruct (Process mp data) as [[e|] mp']; unfold bind, emit, ret;
        cbn [fst snd app]; rewrite ?app_nil_r; cbn [sentBatches]; apply IH.
    + unfold bind, ret. cbn [fst]. rewrite app_nil_r. apply IH.
Qed.

Lemma dispatch_flushCalls (data : TraceOperation) (mps : list M) :
  forall i, flushCalls (trace (dispatch data i mps)) = [].
Proof.
  unfold trace.
  induction mps as [|mp rest IH]; intros i; cbn [dispatch].
  - reflexivity.
  - destruct (OwnsKey mp (Key data)); cbn [negb].
    + destruct (Process mp data) as [[e|] mp']; unfold bind, emit, ret;
        cbn [fst snd app]; rewrite ?app_nil_r; cbn [flushCalls]; apply IH.
    + unfold bind, ret. cbn [fst]. rewrite app_nil_r. apply IH.
Qed.

(** A failing [Process] is followed at once by its log line, and the loop
    goes on to the modules behind it. *)
Lemma dispatch_logs_error (data : TraceOperation) (mps : list M) :
  forall i j mp e,
    nth_error mps j = Some mp ->
    OwnsKey mp (Key data) = true ->
    fst (Process mp data) = Some e ->
    exists before,
      trace (dispatch data i mps)
      = before
        ++ [ProcessCall (i + j) data;
            ErrorwProcessing e data (ModuleName (snd (Process mp data)))]
        ++ trace (dispatch data (S (i + j)) (skipn (S j) mps)).
Proof.
  unfold trace.
  induction mps as [|mp0 rest IH]; intros i j mp e Hnth Howns Herr.
  - destruct j; discriminate.
  - destruct j as [|j]; cbn [nth_error] in Hnth.
    + inversion Hnth; subst mp0. exists []. cbn [dispatch skipn].
      rewrite Howns. cbn [negb].
      destruct (Process mp data) as [err mp']. cbn [fst snd] in *. subst err.
      unfold bind, emit, ret. cbn [fst snd app]. rewrite app_nil_r.
      now rewrite Nat.add_0_r.
    + destruct (IH (S i) j mp e Hnth Howns Herr) as [before Hb].
      cbn [dispatch skipn].
      replace (i + S j) with (S i + j) by lia.
      destruct (OwnsKey mp0 (Key data)); cbn [negb].
      * destruct (Process mp0 data) as [[e0|] mp0'];
          unfold bind, emit, ret; cbn [fst snd app]; rewrite app_nil_r, Hb.
        -- exists (ProcessCall i data
                   :: ErrorwProcessing e0 data (ModuleName mp0') :: before).
           reflexivity.
        -- exists (ProcessCall i data :: before). reflexivity.
      * unfold bind, ret. cbn [fst]. rewrite app_nil_r, Hb.
        exists before. reflexivity.
Qed.

End TraceReading.

(** ** One received operation *)

Section Handle.

Context {R M : Type} {HR : DatabaseEntrier R} {HM : Module R M}.

Lemma heightChanged_true (p : Processor M) (data : TraceOperation) :
  heightChanged p data = true <->
  BlockHeight data <> lastHeight p /\ BlockHeight data <> 0%N.
Proof.
  unfold heightChanged.
  rewrite andb_true_iff, !negb_true_iff, !N.eqb_neq. tauto.
Qed.

Lemma heightChanged_false (p : Processor M) (data : TraceOperation) :
  heightChanged p data = false <->
  BlockHeight data = 0%N \/ BlockHeight data = lastHeight p.
Proof.
  unfold heightChanged.
  rewrite andb_false_iff, !negb_false_iff, !N.eqb_eq. tauto.
Qed.

(** The batch published when the registry [mps] is flushed. *)
Lemma handle_changed (p : Processor M) (data : TraceOperation) :
  heightChanged p data = true ->
  trace (handle (R:=R) p data)
  = map FlushCacheCall (seq 0 (List.length (moduleProcessors p)))
    ++ [WritebackSend
          (map (stampEntry (chainName p))
               (filter hasData (flushResults (moduleProcessors p))));
        InfowNewBlock (lastHeight p)]
    ++ trace (dispatch (R:=R) data 0 (flushed (moduleProcessors p)))
  /\ result (handle (R:=R) p data)
     = mkProcessor (migrations p) (BlockHeight data) (chainName p)
                   (processedBy data (flushed (moduleProcessors p))).
Proof.
  intros Hc.
  pose proof (flushModules_trace (chainName p) (moduleProcessors p) 0 []) as Ht.
  pose proof (flushModules_result (chainName p) (moduleProcessors p) 0 []) as Hr.
  pose proof (dispatch_result (R:=R) data (flushed (moduleProcessors p)) 0) as Hd.
  unfold trace, result in *. unfold handle, flushOnNewHeight. rewrite Hc.
  unfold bind at 1 2 3. cbn [fst snd].
  destruct (flushModules (chainName p) 0 (moduleProcessors p) [])
    as [t [mps wb]]. cbn [fst snd] in *. inversion Hr; subst mps wb t.
  unfold bind, emit, ret. cbn [fst snd app moduleProcessors migrations
                                lastHeight chainName].
  rewrite !app_nil_r, Hd. split; [|reflexivity].
  rewrite <- app_assoc. reflexivity.
Qed.

Lemma handle_unchanged (p : Processor M) (data : TraceOperation) :
  heightChanged p data = false ->
  trace (handle (R:=R) p data) = trace (dispatch (R:=R) data 0 (moduleProcessors p))
  /\ result (handle (R:=R) p data)
     = mkProcessor (migrations p) (lastHeight p) (chainName p)
                   (processedBy data (moduleProcessors p)).
Proof.
  intros Hc.
  pose proof (dispatch_result (R:=R) data (moduleProcessors p) 0) as Hd.
  unfold trace, result in *. unfold handle, flushOnNewHeight. rewrite Hc.
  unfold bind, ret. cbn [fst snd app]. rewrite app_nil_r, Hd. auto.
Qed.

Lemma handle_chainName (p : Processor M) (data : TraceOperation) :
  chainName (result (handle (R:=R) p data)) = chainName p.
Proof.
  destruct (heightChanged p data) eqn:Hc.
  - destruct (handle_changed p data Hc) as [_ ->]. reflexivity.
  - destruct (handle_unchanged p data Hc) as [_ ->]. reflexivity.
Qed.

Lemma handle_lastHeight (p : Processor M) (data : TraceOperation) :
  lastHeight (result (handle (R:=R) p data))
  = if heightChanged p data then BlockHeight data else lastHeight p.
Proof.
  destruct (heightChanged p data) eqn:Hc.
  - destruct (handle_changed p data Hc) as [_ ->]. reflexivity.
  - destruct (handle_unchanged p data Hc) as [_ ->]. reflexivity.
Qed.

(** *** The loop *)

Lemma lifecycle_cons (p : Processor M) (data : TraceOperation)
      (rest : list TraceOperation) :
  trace (lifecycle (R:=R) p (data :: rest))
  = trace (handle (R:=R) p data)
    ++ trace (lifecycle (R:=R) (result (handle (R:=R) p data)) rest)
  /\ result (lifecycle (R:=R) p (data :: rest))
     = result (lifecycle (R:=R) (result (handle (R:=R) p data)) rest).
Proof. split; reflexivity. Qed.

Lemma lifecycle_app (pre post : list TraceOperation) :
  forall p : Processor M,
    trace (lifecycle (R:=R) p (pre ++ post))
    = trace (lifecycle (R:=R) p pre)
      ++ trace (lifecycle (R:=R) (result (lifecycle (R:=R) p pre)) post)
    /\ result (lifecycle (R:=R) p (pre ++ post))
       = result (lifecycle (R:=R) (result (lifecycle (R:=R) p pre)) post).
Proof.
  induction pre as [|data pre IH]; intros p.
  - split; reflexivity.
  - destruct (IH (result (handle (R:=R) p data))) as [IHt IHr].
    destruct (lifecycle_cons p data (pre ++ post)) as [Ht Hr].
    destruct (lifecycle_cons p data pre) as [Ht' Hr'].
    cbn [app]. rewrite Ht, Hr, Ht', Hr', IHt, IHr, app_assoc. auto.
Qed.

Lemma lifecycle_chainName (ops : list TraceOperation) :
  forall p : Processor M,
    chainName (result (lifecycle (R:=R) p ops)) = chainName p.
Proof.
  induction ops as [|data rest IH]; intros p; [reflexivity|].
  destruct (lifecycle_cons p data rest) as [_ ->].
  now rewrite IH, handle_chainName.
Qed.

Lemma lifecycle_lastHeight (ops : list TraceOperation) :
  forall p : Processor M,
    lastHeight (result (lifecycle (R:=R) p ops))
    = watermark (lastHeight p) (map BlockHeight ops).
Proof.
  induction ops as [|data rest IH]; intros p; [reflexivity|].
  destruct (lifecycle_cons p data rest) as [_ ->].
  rewrite IH, handle_lastHeight. reflexivity.
Qed.

Lemma handle_processCalls_data (p : Processor M) (data : TraceOperation) :
  forall i d, In (ProcessCall i d) (trace (handle (R:=R) p data)) -> d = data.
Proof.
  intros i d Hin. apply processCalls_in in Hin.
  destruct (heightChanged p data) eqn:Hc.
  - destruct (handle_changed p data Hc) as [Ht _]. rewrite Ht in Hin.
    rewrite !processCalls_app, processCalls_flushes in Hin.
    cbn [processCalls app] in Hin.
    rewrite dispatch_processCalls in Hin.
    apply in_map_iff in Hin. destruct Hin as [j [Heq _]]. congruence.
  - destruct (handle_unchanged p data Hc) as [Ht _]. rewrite Ht in Hin.
    rewrite dispatch_processCalls in Hin.
    apply in_map_iff in Hin. destruct Hin as [j [Heq _]]. congruence.
Qed.

Lemma lifecycle_processCalls_received (ops : list TraceOperation) :
  forall (p : Processor M) i d,
    In (ProcessCall i d) (trace (lifecycle (R:=R) p ops)) -> In d ops.
Proof.
  induction ops as [|data rest IH]; intros p i d Hin.
  - destruct Hin.
  - destruct (lifecycle_cons p data rest) as [Ht _]. rewrite Ht in Hin.
    apply in_app_or in Hin. destruct Hin as [Hin|Hin].
    + left. symmetry. exact (handle_processCalls_data p data i d Hin).
    + right. exact (IH _ i d Hin).
Qed.

End Handle.

(** ** Owners of a key *)

Section Owners.

Context {R M : Type} {HM : Module R M}.

Lemma ownersFrom_in (key : list byte) (mps : list M) :
  forall i j,
    In j (ownersFrom i key mps) <->
    exists mp, i <= j /\ nth_error mps (j - i) = Some mp /\ OwnsKey mp key = true.
Proof.
  induction mps as [|mp0 rest IH]; intros i j; cbn [ownersFrom].
  - split; [intros [] | intros [mp [_ [Hn _]]]].
    destruct (j - i); discriminate.
  - assert (In j (ownersFrom (S i) key rest) <->
            exists mp, S i <= j /\ nth_error (mp0 :: rest) (j - i) = Some mp
                       /\ OwnsKey mp key = true) as Hrest.
    { rewrite IH. split; intros [mp [Hle [Hn Ho]]]; exists mp;
        (split; [exact Hle|]); (split; [|exact Ho]).
      - replace (j - i) with (S (j - S i)) by lia. exact Hn.
      - replace (j - i) with (S (j - S i)) in Hn by lia. exact Hn. }
    destruct (OwnsKey mp0 key) eqn:Ho0.
    + cbn [In]. rewrite Hrest. split.
      * intros [<-|[mp [Hle H]]].
        -- exists mp0. rewrite Nat.sub_diag. auto.
        -- exists mp. split; [lia | exact H].
      * intros [mp [Hle [Hn Ho]]].
        destruct (Nat.eq_dec i j) as [->|Hne]; [now left|].
        right. exists mp. split; [lia | auto].
    + rewrite Hrest. split.
      * intros [mp [Hle H]]. exists mp. split; [lia | exact H].
      * intros [mp [Hle [Hn Ho]]].
        destruct (Nat.eq_dec i j) as [->|Hne].
        -- rewrite Nat.sub_diag in Hn. cbn in Hn. congruence.
        -- exists mp. split; [lia | auto].
Qed.

Lemma ownersFrom_sorted (key : list byte) (mps : list M) :
  forall i, StronglySorted lt (ownersFrom i key mps).
Proof.
  induction mps as [|mp0 rest IH]; intros i; cbn [ownersFrom].
  - constructor.
  - destruct (OwnsKey mp0 key); [|apply IH].
    constructor; [apply IH|].
    apply Forall_forall. intros j Hj. apply ownersFrom_in in Hj.
    destruct Hj as [_ [Hle _]]. lia.
Qed.

End Owners.

(** ** Heights that never fall *)

Lemma ascending_app (l1 l2 : list N) :
  forall h,
    ascending h (l1 ++ l2) = ascending h l1 && ascending (watermark h l1) l2.
Proof.
  induction l1 as [|x l1 IH]; intros h; [reflexivity|].
  cbn [app ascending watermark].
  destruct (N.eqb_spec x 0) as [->|Hx]; cbn [negb].
  - rewrite andb_false_r. apply IH.
  - rewrite andb_true_r, IH, andb_assoc.
    destruct (N.eqb_spec x h) as [->|Hxh]; reflexivity.
Qed.

Lemma ascending_bounds (l : list N) :
  forall h,
    ascending h l = true ->
    (h <= watermark h l)%N
    /\ forall y, In y l -> y = 0%N \/ (y <= watermark h l)%N.
Proof.
  induction l as [|x l IH]; intros h Hasc.
  - split; [cbn; lia | intros y []].
  - cbn [ascending watermark] in *.
    destruct (N.eqb_spec x 0) as [->|Hx]; cbn [negb] in *.
    + rewrite andb_false_r. destruct (IH h Hasc) as [Hh Hl].
      split; [exact Hh|]. intros y [<-|Hy]; [now left | now apply Hl].
    + rewrite andb_true_r. apply andb_true_iff in Hasc.
      destruct Hasc as [Hle Hasc]. apply N.leb_le in Hle.
      destruct (IH x Hasc) as [Hh Hl].
      assert (watermark (if negb (N.eqb x h) then x else h) l = watermark x l)
        as -> by (destruct (N.eqb_spec x h) as [->|_]; reflexivity).
      split; [lia|]. intros y [<-|Hy]; [now right | now apply Hl].
Qed.

(** With heights that never fall, a height that changes the watermark was
    not seen before. *)
Lemma ascending_new_height (l : list N) (x h : N) :
  ascending h (l ++ [x]) = true ->
  x <> 0%N ->
  x <> watermark h l ->
  forall y, In y l -> y <> x.
Proof.
  intros Hasc Hx Hw y Hy. rewrite ascending_app in Hasc.
  apply andb_true_iff in Hasc. destruct Hasc as [Hl Hlast].
  cbn [ascending] in Hlast.
  destruct (N.eqb_spec x 0) as [->|_]; [congruence|].
  rewrite andb_true_r in Hlast. apply N.leb_le in Hlast.
  destruct (ascending_bounds l h Hl) as [_ Hb].
  destruct (Hb y Hy) as [->|Hle]; [congruence | lia].
Qed.

(** ** The lifecycle claims *)

Section Lifecycle.

Context {R M : Type} {HR : DatabaseEntrier R} {HM : Module R M}.

(** C1, amended. An operation whose height is not 0 and differs from the
    watermark left by the operations before it makes the loop call
    [FlushCache] on every registered module in registry order, send the
    aggregate batch on the writeback channel, and only then dispatch the
    operation: the trace of the run is the trace of the earlier operations
    (whose [Process] calls all carry earlier operations), the flush calls
    at positions 0, 1, ..., the send, the log line, the dispatch of this
    operation (which neither flushes nor sends), and the rest of the run.
    When the nonzero heights received so far never fall below the height
    reached before them, no operation processed before that send has the
    new height.  (When a height comes back after a different one,
    operations of that height were processed before.) *)
Theorem flush_and_send_precede_dispatch
        (p : Processor M) (pre post : list TraceOperation) (data : TraceOperation) :
  BlockHeight data <> lastHeight (result (lifecycle (R:=R) p pre)) ->
  BlockHeight data <> 0%N ->
  let q := result (lifecycle (R:=R) p pre) in
  let dispatched := trace (dispatch (R:=R) data 0 (flushed (moduleProcessors q))) in
  exists wb,
    trace (lifecycle (R:=R) p (pre ++ data :: post))
    = trace (lifecycle (R:=R) p pre)
      ++ map FlushCacheCall (seq 0 (List.length (moduleProcessors q)))
      ++ [WritebackSend wb; InfowNewBlock (lastHeight q)]
      ++ dispatched
      ++ trace (lifecycle (R:=R) (result (handle (R:=R) q data)) post)
    /\ wb = map (stampEntry (chainName q))
                (filter hasData (flushResults (moduleProcessors q)))
    /\ (forall i d, In (ProcessCall i d) (trace (lifecycle (R:=R) p pre)) -> In d pre)
    /\ processCalls dispatched
       = map (fun j => (j, data))
             (ownersFrom 0 (Key data) (flushed (moduleProcessors q)))
    /\ sentBatches dispatched = []
    /\ flushCalls dispatched = []
    /\ (ascending (lastHeight p) (map BlockHeight (pre ++ [data])) = true ->
        forall i d, In (ProcessCall i d) (trace (lifecycle (R:=R) p pre)) ->
                    BlockHeight d <> BlockHeight data).
Proof.
  intros Hne Hnz q dispatched.
  assert (heightChanged q data = true) as Hc
    by (apply heightChanged_true; auto).
  destruct (handle_changed q data Hc) as [Ht _].
  destruct (lifecycle_app pre (data :: post) p) as [Happ _].
  destruct (lifecycle_cons q data post) as [Hcons _].
  eexists. split; [|split; [reflexivity|]].
  - rewrite Happ. fold q. rewrite Hcons, Ht.
    rewrite <- !app_assoc. reflexivity.
  - split; [apply lifecycle_processCalls_received|].
    split; [apply dispatch_processCalls|].
    split; [apply dispatch_sentBatches|].
    split; [apply dispatch_flushCalls|].
    intros Hasc i d Hin.
    apply lifecycle_processCalls_received in Hin.
    rewrite map_app in Hasc. cbn [map] in Hasc.
    rewrite lifecycle_lastHeight in Hne.
    apply (ascending_new_height _ _ _ Hasc Hnz Hne).
    now apply in_map.
Qed.

(** C6. An operation whose height is 0 or equals the watermark causes no
    [FlushCache] call and no send, and leaves the watermark as it was; it
    is passed to [Process] of exactly the modules whose [OwnsKey] answers
    true for its key, in increasing registry position, and the other
    modules are left as they were. *)
Theorem same_height_dispatches_to_owners
        (p : Processor M) (data : TraceOperation) :
  BlockHeight data = 0%N \/ BlockHeight data = lastHeight p ->
  lastHeight (result (handle (R:=R) p data)) = lastHeight p
  /\ flushCalls (trace (handle (R:=R) p data)) = []
  /\ sentBatches (trace (handle (R:=R) p data)) = []
  /\ (exists owners,
        processCalls (trace (handle (R:=R) p data))
        = map (fun j => (j, data)) owners
        /\ StronglySorted lt owners
        /\ forall j, In j owners <->
                     exists mp, nth_error (moduleProcessors p) j = Some mp
                                /\ OwnsKey mp (Key data) = true)
  /\ moduleProcessors (result (handle (R:=R) p data))
     = processedBy data (moduleProcessors p).
Proof.
  intros Hsame. apply heightChanged_false in Hsame.
  destruct (handle_unchanged p data Hsame) as [Ht Hr].
  rewrite Ht, Hr. cbn [lastHeight moduleProcessors].
  split; [reflexivity|]. split; [apply dispatch_flushCalls|].
  split; [apply dispatch_sentBatches|]. split; [|reflexivity].
  exists (ownersFrom 0 (Key data) (moduleProcessors p)).
  split; [apply dispatch_processCalls|].
  split; [apply ownersFrom_sorted|].
  intros j. rewrite ownersFrom_in. rewrite Nat.sub_0_r.
  split; intros [mp H]; exists mp; [tauto | split; [lia | tauto]].
Qed.

(** C8. When [Process] of an owning module returns an error, the next
    event of the trace is the error log line carrying that error, the
    operation and the module's name; the dispatch loop then runs on over
    the modules behind it, each owner among them receiving the same
    operation, and the operations received afterwards are handled from the
    state so reached. *)
Theorem process_error_is_logged_and_dispatch_goes_on
        (p : Processor M) (data : TraceOperation) (rest : list TraceOperation)
        (j : nat) (mp : M) (e : error) :
  let mps := if heightChanged p data then flushed (moduleProcessors p)
             else moduleProcessors p in
  nth_error mps j = Some mp ->
  OwnsKey mp (Key data) = true ->
  fst (Process mp data) = Some e ->
  let behind := trace (dispatch (R:=R) data (S j) (skipn (S j) mps)) in
  (exists before,
      trace (handle (R:=R) p data)
      = before
        ++ [ProcessCall j data;
            ErrorwProcessing e data (ModuleName (snd (Process mp data)))]
        ++ behind)
  /\ processCalls behind
     = map (fun k => (k, data)) (ownersFrom (S j) (Key data) (skipn (S j) mps))
  /\ processCalls (trace (handle (R:=R) p data))
     = map (fun k => (k, data)) (ownersFrom 0 (Key data) mps)
  /\ trace (lifecycle (R:=R) p (data :: rest))
     = trace (handle (R:=R) p data)
       ++ trace (lifecycle (R:=R) (result (handle (R:=R) p data)) rest).
Proof.
  intros mps Hnth Howns Herr behind.
  destruct (dispatch_logs_error (R:=R) data mps 0 j mp e Hnth Howns Herr)
    as [before Hb]. cbn [Nat.add] in Hb.
  split; [|split; [apply dispatch_processCalls|split; [|reflexivity]]].
  - subst mps. destruct (heightChanged p data) eqn:Hc.
    + destruct (handle_changed p data Hc) as [Ht _]. rewrite Ht, Hb.
      eexists. rewrite !app_assoc. reflexivity.
    + destruct (handle_unchanged p data Hc) as [Ht _]. rewrite Ht, Hb.
      exists before. reflexivity.
  - subst mps. destruct (heightChanged p data) eqn:Hc.
    + destruct (handle_changed p data Hc) as [Ht _]. rewrite Ht.
      rewrite !processCalls_app, processCalls_flushes. cbn [processCalls app].
      apply dispatch_processCalls.
    + destruct (handle_unchanged p data Hc) as [Ht _]. rewrite Ht.
      apply dispatch_processCalls.
Qed.

End Lifecycle.

(** ** What is published, and when *)

Section Published.

Context {R M : Type} {HR : DatabaseEntrier R} {HM : Module R M}.

Lemma handle_sentBatches (p : Processor M) (data : TraceOperation) :
  sentBatches (trace (handle (R:=R) p data))
  = if heightChanged p data
    then [map (stampEntry (chainName p))
              (filter hasData (flushResults (moduleProcessors p)))]
    else [].
Proof.
  destruct (heightChanged p data) eqn:Hc.
  - destruct (handle_changed p data Hc) as [Ht _]. rewrite Ht.
    rewrite !sentBatches_app, sentBatches_flushes, dispatch_sentBatches.
    reflexivity.
  - destruct (handle_unchanged p data Hc) as [Ht _]. rewrite Ht.
    apply dispatch_sentBatches.
Qed.

Lemma stampEntry_rows (cn : string) (entry : WritebackOp R) :
  rowsOf (stampEntry cn entry) = map (WithChainName cn) (rowsOf entry).
Proof. unfold rowsOf, stampEntry. simpl. destruct (Data entry); reflexivity. Qed.

Lemma stampEntry_hasData (cn : string) (entry : WritebackOp R) :
  hasData (stampEntry cn entry) = hasData entry.
Proof. unfold hasData, stampEntry. simpl. destruct (Data entry); reflexivity. Qed.

Lemma hasData_true (entry : WritebackOp R) :
  hasData entry = true <-> Data entry <> None.
Proof.
  unfold hasData. destruct (Data entry); split; congruence.
Qed.

Lemma lifecycle_sent (ops : list TraceOperation) :
  forall (p : Processor M) wb,
    In wb (sentBatches (trace (lifecycle (R:=R) p ops))) ->
    exists pre data post,
      ops = pre ++ data :: post
      /\ wb = map (stampEntry (chainName p))
                  (filter hasData
                     (flushResults
                        (moduleProcessors (result (lifecycle (R:=R) p pre))))).
Proof.
  induction ops as [|data rest IH]; intros p wb Hin.
  - destruct Hin.
  - destruct (lifecycle_cons p data rest) as [Ht _]. rewrite Ht in Hin.
    rewrite sentBatches_app in Hin. apply in_app_or in Hin.
    destruct Hin as [Hin|Hin].
    + rewrite handle_sentBatches in Hin.
      destruct (heightChanged p data); [|destruct Hin].
      destruct Hin as [<-|[]]. exists [], data, rest. auto.
    + destruct (IH _ wb Hin) as [pre [d [post [Hops Hwb]]]].
      exists (data :: pre), d, post. split; [now rewrite Hops|].
      rewrite handle_chainName in Hwb. exact Hwb.
Qed.

(** C4, amended. At a height-boundary flush a batch returned by
    [FlushCache] goes into the aggregate, with its rows tagged, if and only
    if its [Data] is not nil: the aggregate is the non-nil batches of the
    flush results in order, one entry each, and no entry of it has nil
    [Data].  (A non-nil batch without rows is kept.) *)
Theorem flush_keeps_batches_with_non_nil_data
        (p : Processor M) (data : TraceOperation) :
  BlockHeight data <> lastHeight p ->
  BlockHeight data <> 0%N ->
  let returned := flushResults (moduleProcessors p) in
  exists wb,
    sentBatches (trace (handle (R:=R) p data)) = [wb]
    /\ wb = map (stampEntry (chainName p)) (filter hasData returned)
    /\ (forall entry, In entry returned ->
          (In (stampEntry (chainName p) entry) wb <-> Data entry <> None))
    /\ Forall (fun entry => Data entry <> None) wb.
Proof.
  intros Hne Hnz returned.
  assert (heightChanged p data = true) as Hc
    by (apply heightChanged_true; auto).
  eexists. split; [rewrite handle_sentBatches, Hc; reflexivity|].
  split; [reflexivity|]. split.
  - intros entry Hin. split.
    + intros Hw. apply in_map_iff in Hw. destruct Hw as [e' [Heq He']].
      apply filter_In in He'. destruct He' as [_ Hd].
      rewrite <- stampEntry_hasData with (cn := chainName p) in Hd.
      rewrite Heq in Hd. rewrite stampEntry_hasData in Hd.
      now apply hasData_true.
    + intros Hd. apply in_map. apply filter_In. split; [exact Hin|].
      now apply hasData_true.
  - apply Forall_forall. intros e He. apply in_map_iff in He.
    destruct He as [e' [<- He']]. apply filter_In in He'.
    destruct He' as [_ Hd]. apply hasData_true.
    now rewrite stampEntry_hasData.
Qed.

(** C5. Every batch sent on the writeback channel during a run is made of
    the batches some registry of the run returned from [FlushCache], each
    row replaced by [WithChainName] of the configured chain name; so every
    row of every published batch is such a result. *)
Theorem published_rows_carry_the_chain_name
        (p : Processor M) (ops : list TraceOperation)
        (wb : list (WritebackOp R)) :
  In (WritebackSend wb) (trace (lifecycle (R:=R) p ops)) ->
  (exists pre data post,
      ops = pre ++ data :: post
      /\ wb = map (stampEntry (chainName p))
                  (filter hasData
                     (flushResults
                        (moduleProcessors (result (lifecycle (R:=R) p pre))))))
  /\ (forall entry, In entry wb ->
        exists returned,
          DatabaseExec entry = DatabaseExec returned
          /\ rowsOf entry = map (WithChainName (chainName p)) (rowsOf returned))
  /\ (forall entry row, In entry wb -> In row (rowsOf entry) ->
        exists row0, row = WithChainName (chainName p) row0).
Proof.
  intros Hin. apply sentBatches_in in Hin.
  destruct (lifecycle_sent ops p wb Hin) as [pre [data [post [Hops Hwb]]]].
  assert (forall entry, In entry wb ->
            exists returned,
              DatabaseExec entry = DatabaseExec returned
              /\ rowsOf entry = map (WithChainName (chainName p)) (rowsOf returned))
    as Hentries.
  { intros entry He. rewrite Hwb in He. apply in_map_iff in He.
    destruct He as [returned [<- _]]. exists returned.
    split; [reflexivity | apply stampEntry_rows]. }
  split; [exists pre, data, post; auto|]. split; [exact Hentries|].
  intros entry row He Hr. destruct (Hentries entry He) as [returned [_ Hrows]].
  rewrite Hrows in Hr. apply in_map_iff in Hr.
  destruct Hr as [row0 [<- _]]. exists row0. reflexivity.
Qed.

Lemma lifecycle_sent_count (ops : list TraceOperation) :
  forall p : Processor M,
    List.length (sentBatches (trace (lifecycle (R:=R) p ops)))
    = transitions (lastHeight p) (map BlockHeight ops).
Proof.
  induction ops as [|data rest IH]; intros p; [reflexivity|].
  destruct (lifecycle_cons p data rest) as [Ht _]. rewrite Ht.
  rewrite sentBatches_app, length_app, IH, handle_sentBatches, handle_lastHeight.
  cbn [map transitions]. fold (heightChanged p data).
  destruct (heightChanged p data); reflexivity.
Qed.

(** C10. An operation that changes the height makes the loop send exactly
    one aggregate batch, and that batch is the empty list when the modules
    returned no batch, or only batches with nil [Data]; over a run the
    number of batches sent is the number of height transitions. *)
Theorem one_batch_per_height_transition
        (p : Processor M) (data : TraceOperation) (ops : list TraceOperation) :
  BlockHeight data <> lastHeight p ->
  BlockHeight data <> 0%N ->
  (exists wb,
      sentBatches (trace (handle (R:=R) p data)) = [wb]
      /\ (Forall (fun entry => Data entry = None)
                 (flushResults (moduleProcessors p)) -> wb = []))
  /\ List.length (sentBatches (trace (lifecycle (R:=R) p ops)))
     = transitions (lastHeight p) (map BlockHeight ops).
Proof.
  intros Hne Hnz.
  assert (heightChanged p data = true) as Hc
    by (apply heightChanged_true; auto).
  split; [|apply lifecycle_sent_count].
  eexists. split; [rewrite handle_sentBatches, Hc; reflexivity|].
  intros Hnil.
  induction (flushResults (moduleProcessors p)) as [|entry l IH]; [reflexivity|].
  inversion Hnil as [|? ? Hd Hl]; subst. cbn [filter].
  unfold hasData at 1. rewrite Hd. exact (IH Hl).
Qed.

End Published.

(** ** The watermark *)

Lemma watermark_ascending (l : list N) (x : N) :
  forall h,
    ascending h (l ++ [x]) = true ->
    (watermark h l <= watermark h (l ++ [x]))%N.
Proof.
  induction l as [|a l IH]; intros h Hasc.
  - cbn in *. destruct (N.eqb_spec x 0) as [->|Hx0].
    + rewrite andb_false_r. lia.
    + rewrite andb_true_r in Hasc. apply N.leb_le in Hasc.
      destruct (N.eqb_spec x h); simpl; lia.
  - cbn [app ascending watermark] in *.
    destruct (N.eqb_spec a 0) as [->|Ha0].
    + rewrite andb_false_r. apply IH. exact Hasc.
    + apply andb_true_iff in Hasc. destruct Hasc as [Hle Hasc].
      rewrite andb_true_r.
      destruct (N.eqb_spec a h) as [->|Hah]; simpl; apply IH; exact Hasc.
Qed.

Section Watermark.

Context {R M : Type} {HR : DatabaseEntrier R} {HM : Module R M}.

(** C3, amended. The watermark changes only when an operation carries a
    nonzero height different from it, and then it becomes that height,
    whether greater or smaller.  When the nonzero heights of the received
    operations never fall below the height reached before them, the
    watermark never decreases and every change is to a strictly greater
    value. *)
Theorem watermark_follows_received_heights
        (p : Processor M) (pre : list TraceOperation) (data : TraceOperation) :
  let before := lastHeight (result (lifecycle (R:=R) p pre)) in
  let after := lastHeight (result (lifecycle (R:=R) p (pre ++ [data]))) in
  (BlockHeight data = 0%N \/ BlockHeight data = before -> after = before)
  /\ (BlockHeight data <> 0%N -> BlockHeight data <> before ->
      after = BlockHeight data)
  /\ (ascending (lastHeight p) (map BlockHeight (pre ++ [data])) = true ->
      (before <= after)%N /\ (after <> before -> (before < after)%N)).
Proof.
  intros before after.
  destruct (lifecycle_app pre [data] p) as [_ Hr].
  assert (after = if heightChanged (result (lifecycle (R:=R) p pre)) data
                  then BlockHeight data else before) as Hafter.
  { unfold after. rewrite Hr.
    destruct (lifecycle_cons (result (lifecycle (R:=R) p pre)) data []) as [_ ->].
    cbn [lifecycle result ret snd]. apply handle_lastHeight. }
  split; [|split].
  - intros Hsame. apply heightChanged_false in Hsame. now rewrite Hafter, Hsame.
  - intros Hnz Hne.
    assert (heightChanged (result (lifecycle (R:=R) p pre)) data = true) as Hc
      by (apply heightChanged_true; auto).
    now rewrite Hafter, Hc.
  - intros Hasc.
    assert (before <= after)%N as Hle.
    { unfold before, after. rewrite !lifecycle_lastHeight.
      rewrite map_app in *. apply watermark_ascending. exact Hasc. }
    split; [exact Hle | lia].
Qed.

End Watermark.

(** ** The splitter *)

Lemma ceilDiv_least (a b : nat) :
  0 < b ->
  a <= ceilDiv a b * b /\ forall q, a <= q * b -> ceilDiv a b <= q.
Proof.
  intros Hb. unfold ceilDiv.
  pose proof (Nat.div_mod_eq (a + (b - 1)) b) as Hdm.
  pose proof (Nat.mod_upper_bound (a + (b - 1)) b ltac:(lia)) as Hub.
  split.
  - nia.
  - intros q Hq.
    assert ((a + (b - 1)) / b < S q) as Hlt
      by (apply Nat.Div0.div_lt_upper_bound; nia).
    lia.
Qed.

Section SplitterFacts.

Context {R : Type}.

Lemma groupRows_step (n : nat) (rows : list R) :
  rows <> [] ->
  groupRows (S n) rows
  = firstn (S n) rows :: groupRows (S n) (skipn (S n) rows).
Proof.
  destruct rows as [|r rest]; [congruence|]. intros _. now simp groupRows.
Qed.

Lemma groupRows_nil (k : nat) : groupRows k ([] : list R) = [].
Proof. destruct k; now simp groupRows. Qed.

Lemma groupRows_concat (n : nat) (rows : list R) :
  List.concat (groupRows (S n) rows) = rows.
Proof.
  remember (List.length rows) as len eqn:Hlen.
  revert rows Hlen. induction len as [len IH] using lt_wf_ind.
  intros rows Hlen. destruct rows as [|r rest].
  - now rewrite groupRows_nil.
  - rewrite groupRows_step by discriminate. cbn [List.concat].
    rewrite (IH (List.length (skipn (S n) (r :: rest)))); [| |reflexivity].
    + apply firstn_skipn.
    + rewrite length_skipn. subst len. simpl. lia.
Qed.

Lemma groupRows_nth (n : nat) (i : nat) :
  forall (rows : list R) g,
    nth_error (groupRows (S n) rows) i = Some g ->
    g = firstn (S n) (skipn (i * S n) rows) /\ g <> [].
Proof.
  induction i as [|i IH]; intros rows g Hnth.
  - destruct rows as [|r rest].
    + rewrite groupRows_nil in Hnth. discriminate.
    + rewrite groupRows_step in Hnth by discriminate. cbn in Hnth.
      inversion Hnth. split; [reflexivity | discriminate].
  - destruct rows as [|r rest].
    + rewrite groupRows_nil in Hnth. discriminate.
    + rewrite groupRows_step in Hnth by discriminate.
      cbn [nth_error] in Hnth. destruct (IH _ _ Hnth) as [Hg Hne].
      split; [|exact Hne]. rewrite Hg, skipn_skipn.
      replace (S i * S n) with (i * S n + S n) by lia. reflexivity.
Qed.

Lemma groupRows_length (n : nat) (rows : list R) :
  List.length (groupRows (S n) rows) = ceilDiv (List.length rows) (S n).
Proof.
  remember (List.length rows) as len eqn:Hlen.
  revert rows Hlen. induction len as [len IH] using lt_wf_ind.
  intros rows Hlen. destruct rows as [|r rest].
  - rewrite groupRows_nil. subst len. unfold ceilDiv. simpl List.length.
    rewrite Nat.div_small; [reflexivity | lia].
  - rewrite groupRows_step by discriminate. cbn [List.length].
    rewrite (IH (List.length (skipn (S n) (r :: rest))));
      [| rewrite length_skipn; subst len; simpl; lia | reflexivity].
    rewrite length_skipn. cbn [List.length] in *. subst len.
    unfold ceilDiv. replace (S n - 1) with n by lia.
    destruct (Nat.le_gt_cases (S n) (S (List.length rest))) as [Hge|Hlt].
    + replace (S (List.length rest) + n)
        with ((S (List.length rest) - S n + n) + 1 * S n) by lia.
      rewrite Nat.div_add by lia. lia.
    + replace (S (List.length rest) - S n) with 0 by lia.
      rewrite (Nat.div_small (0 + n)) by lia.
      apply (Nat.div_unique _ _ 1 (List.length rest)); lia.
Qed.

End SplitterFacts.

Section SplitStatementsClaim.

Context {R : Type}.

Lemma rowsOf_batch (exec : string) (rows : list R) :
  rowsOf (mkWritebackOp exec (Some rows)) = rows.
Proof. reflexivity. Qed.

Lemma rowsOf_batches (exec : string) (gs : list (list R)) :
  map rowsOf (map (fun rows => mkWritebackOp exec (Some rows)) gs) = gs.
Proof.
  induction gs as [|g gs IH]; [reflexivity|]. cbn [map]. now rewrite IH.
Qed.

Lemma rowsOf_singletons (exec : string) (rows : list R) :
  List.concat (map rowsOf (map (fun row => mkWritebackOp exec (Some [row])) rows))
  = rows.
Proof.
  induction rows as [|r rows IH]; [reflexivity|].
  cbn [map List.concat]. rewrite IH. reflexivity.
Qed.

(** C2. With [f <= limit] the splitter returns: when [limit] is a multiple
    of [f], the consecutive groups of [limit / f] rows, the i-th batch
    holding rows [i * (limit / f)] onwards, every batch but the last full
    and none empty, [ceilDiv (len rows) (limit / f)] batches in all; when
    it is not a multiple, one batch per row with one row each.  In both
    cases the rows of the batches, read in order, are the input rows, and
    every batch keeps the statement template.  With [f > limit] it aborts. *)
Theorem SplitStatements_groups_by_arity
        (f : positive) (limit : Z) (wo : WritebackOp R) :
  ((Z.pos f <= limit)%Z ->
     exists batches,
       SplitStatements f limit wo = Some batches
       /\ List.concat (map rowsOf batches) = rowsOf wo
       /\ Forall (fun b => DatabaseExec b = DatabaseExec wo) batches
       /\ ((limit mod Z.pos f = 0)%Z ->
             let k := Z.to_nat (limit / Z.pos f) in
             List.length batches = ceilDiv (List.length (rowsOf wo)) k
             /\ forall i b,
                 nth_error batches i = Some b ->
                 rowsOf b = firstn k (skipn (i * k) (rowsOf wo))
                 /\ 1 <= List.length (rowsOf b) <= k
                 /\ (S i < List.length batches -> List.length (rowsOf b) = k))
       /\ ((limit mod Z.pos f <> 0)%Z ->
             List.length batches = List.length (rowsOf wo)
             /\ Forall (fun b => List.length (rowsOf b) = 1) batches))
  /\ ((limit < Z.pos f)%Z -> SplitStatements f limit wo = None).
Proof.
  unfold SplitStatements. split.
  - intros Hfit.
    destruct (Z.ltb_spec limit (Z.pos f)) as [Hlt|_]; [lia|].
    assert (0 < limit / Z.pos f)%Z as Hk by (apply Z.div_str_pos; lia).
    destruct (Z.eqb_spec (limit mod Z.pos f) 0) as [Hmul|Hrem].
    + remember (Z.to_nat (limit / Z.pos f)) as k eqn:Ek.
      destruct k as [|n]; [lia|].
      eexists. split; [reflexivity|].
      split; [rewrite rowsOf_batches; apply groupRows_concat|].
      split; [apply Forall_forall; intros b Hb; apply in_map_iff in Hb;
              destruct Hb as [g [<- _]]; reflexivity|].
      split; [|intros Hc; contradiction].
      intros _.
      assert (List.length
                (map (fun rows => mkWritebackOp (DatabaseExec wo) (Some rows))
                     (groupRows (S n) (rowsOf wo)))
              = ceilDiv (List.length (rowsOf wo)) (S n)) as Hlen
        by (rewrite length_map; apply groupRows_length).
      split; [exact Hlen|].
      intros i b Hnth. rewrite Hlen. rewrite nth_error_map in Hnth.
      destruct (nth_error (groupRows (S n) (rowsOf wo)) i) as [g|] eqn:Eg;
        [|discriminate].
      cbn in Hnth. inversion Hnth; subst b. rewrite rowsOf_batch.
      destruct (groupRows_nth n i _ _ Eg) as [Hg Hne].
      split; [exact Hg|].
      assert (List.length g
              = Nat.min (S n) (List.length (rowsOf wo) - i * S n)) as Hsize
        by (rewrite Hg, length_firstn, length_skipn; reflexivity).
      split.
      * destruct g; [congruence|]. cbn [List.length] in *. lia.
      * intros Hlast.
        destruct (Nat.le_gt_cases (List.length (rowsOf wo)) (S i * S n))
          as [Hshort|Hlong].
        -- destruct (ceilDiv_least (List.length (rowsOf wo)) (S n) ltac:(lia))
             as [_ Hleast].
           specialize (Hleast (S i) Hshort). lia.
        -- lia.
    + eexists. split; [reflexivity|].
      split; [apply rowsOf_singletons|].
      split; [apply Forall_forall; intros b Hb; apply in_map_iff in Hb;
              destruct Hb as [g [<- _]]; reflexivity|].
      split; [intros Hc; contradiction|].
      intros _. split; [apply length_map|].
      apply Forall_forall. intros b Hb. apply in_map_iff in Hb.
      destruct Hb as [g [<- _]]. reflexivity.
  - intros Hlt. destruct (Z.ltb_spec limit (Z.pos f)) as [_|Hge]; [reflexivity|lia].
Qed.

End SplitStatementsClaim.

(** The cases of [TestWritebackOp_SplitStatements]. *)

Example split_limit_15_returns_4 :
  option_map (@List.length _) (SplitStatements authRowFields 15 (testNeedle ""))
  = Some 4.
Proof. reflexivity. Qed.

Example split_limit_4_returns_4 :
  option_map (@List.length _) (SplitStatements authRowFields 4 (testNeedle "statement"))
  = Some 4.
Proof. reflexivity. Qed.

Example split_limit_40_returns_1 :
  option_map (@List.length _) (SplitStatements authRowFields 40 (testNeedle "statement"))
  = Some 1.
Proof. reflexivity. Qed.

(** * The claims on the fixtures *)

Lemma AddModule_rejects_duplicate_else_appends_witness :
  (exists em, In em (moduleProcessors testProcessor)
              /\ ModuleName em = ModuleName bankStub)
  /\ snd (AddModule testProcessor bankStub) = testProcessor
  /\ (forall em, In em (moduleProcessors testProcessor) ->
                 ModuleName em <> ModuleName delegationsStub)
  /\ moduleProcessors (snd (AddModule testProcessor delegationsStub))
     = moduleProcessors testProcessor ++ [delegationsStub].
Proof.
  assert (exists em, In em (moduleProcessors testProcessor)
                     /\ ModuleName em = ModuleName bankStub) as Hdup.
  { exists bankStub. split; [right; left; reflexivity | reflexivity]. }
  assert (forall em, In em (moduleProcessors testProcessor) ->
                     ModuleName em <> ModuleName delegationsStub) as Hfresh.
  { intros em [<-|[<-|[]]]; discriminate. }
  split; [exact Hdup|].
  split; [exact (proj2 (proj1 (AddModule_rejects_duplicate_else_appends
                                 testProcessor bankStub) Hdup))|].
  split; [exact Hfresh|].
  exact (proj1 (proj2 (proj2 (AddModule_rejects_duplicate_else_appends
                                testProcessor delegationsStub) Hfresh))).
Defined.

Lemma New_builds_registry_and_migrations_witness :
  (forall name, In name ["bank"; "delegations"; "auth"] ->
                knownName (M:=stubModule) name)
  /\ (exists p, result (New emptyProcessor (mkConfig "cosmos-hub" None)) = (p, None)
                /\ List.length (DatabaseMigrations p) = 3)
  /\ (exists name, In name ["bank"; "staking"]
                   /\ ~ knownName (M:=stubModule) name)
  /\ (exists err,
         result (New emptyProcessor (mkConfig "cosmos-hub" (Some ["bank"; "staking"])))
         = (emptyProcessor, Some err)).
Proof.
  assert (forall name, In name ["bank"; "delegations"; "auth"] ->
                       knownName (M:=stubModule) name) as Hknown.
  { intros name [<-|[<-|[<-|[]]]].
    - exists bankProcessor. reflexivity.
    - exists delegationsProcessor. reflexivity.
    - exists authProcessor. reflexivity. }
  assert (exists name, In name ["bank"; "staking"]
                       /\ ~ knownName (M:=stubModule) name) as Hbad.
  { exists "staking". split; [right; left; reflexivity|].
    intros [k Hk]. destruct k; discriminate. }
  split; [exact Hknown|]. split.
  - destruct (proj1 (New_builds_registry_and_migrations
                       emptyProcessor (mkConfig "cosmos-hub" None)
                       ["bank"; "delegations"; "auth"] eq_refl) Hknown)
      as [p [Hr [_ [_ [Hlen _]]]]].
    exists p. split; [exact Hr | exact Hlen].
  - split; [exact Hbad|].
    destruct (proj2 (New_builds_registry_and_migrations
                       emptyProcessor
                       (mkConfig "cosmos-hub" (Some ["bank"; "staking"]))
                       ["bank"; "staking"] eq_refl) Hbad)
      as [err [Hr _]].
    exists err. exact Hr.
Defined.

Lemma flush_and_send_precede_dispatch_witness :
  BlockHeight (opAt 2 balanceKey)
  <> lastHeight (result (lifecycle testProcessor [opAt 1 balanceKey]))
  /\ BlockHeight (opAt 2 balanceKey) <> 0%N
  /\ ascending (lastHeight testProcessor)
               (map BlockHeight ([opAt 1 balanceKey] ++ [opAt 2 balanceKey])) = true
  /\ (exists wb before after,
         trace (lifecycle testProcessor [opAt 1 balanceKey; opAt 2 balanceKey])
         = before
           ++ [FlushCacheCall 0; FlushCacheCall 1; WritebackSend wb; InfowNewBlock 1]
           ++ after
         /\ processCalls after = [(0, opAt 2 balanceKey); (1, opAt 2 balanceKey)])
  /\ (forall i d,
         In (ProcessCall i d) (trace (lifecycle testProcessor [opAt 1 balanceKey])) ->
         BlockHeight d <> BlockHeight (opAt 2 balanceKey)).
Proof.
  assert (BlockHeight (opAt 2 balanceKey)
          <> lastHeight (result (lifecycle testProcessor [opAt 1 balanceKey])))
    as Hne by (vm_compute; discriminate).
  assert (BlockHeight (opAt 2 balanceKey) <> 0%N) as Hnz
    by (vm_compute; discriminate).
  split; [exact Hne|]. split; [exact Hnz|]. split; [reflexivity|].
  destruct (flush_and_send_precede_dispatch
              testProcessor [opAt 1 balanceKey] [] (opAt 2 balanceKey) Hne Hnz)
    as [wb [Ht [_ [_ [Hcalls [_ [_ Hnew]]]]]]].
  split; [|exact (Hnew eq_refl)].
  exists wb, (trace (lifecycle testProcessor [opAt 1 balanceKey])).
  eexists. split; [exact Ht|].
  rewrite processCalls_app, Hcalls. reflexivity.
Defined.

(** C1 as stated fails: with heights 5, 3, 5 the last operation changes the
    height to 5, yet an operation of height 5 was processed before the
    batch of height 3 is sent. *)
Lemma returning_height_was_processed_before :
  ~ (forall pre data post i d,
        [opAt 5 balanceKey; opAt 3 balanceKey; opAt 5 balanceKey]
        = pre ++ data :: post ->
        BlockHeight data <> lastHeight (result (lifecycle testProcessor pre)) ->
        BlockHeight data <> 0%N ->
        In (ProcessCall i d) (trace (lifecycle testProcessor pre)) ->
        BlockHeight d <> BlockHeight data).
Proof.
  intros Hclaim.
  apply (Hclaim [opAt 5 balanceKey; opAt 3 balanceKey] (opAt 5 balanceKey) []
                0 (opAt 5 balanceKey)).
  - reflexivity.
  - vm_compute. discriminate.
  - vm_compute. discriminate.
  - cbn. do 4 right. left. reflexivity.
  - reflexivity.
Qed.

Lemma same_height_dispatches_to_owners_witness :
  (BlockHeight (opAt 1 balanceKey) = 0%N
   \/ BlockHeight (opAt 1 balanceKey) = lastHeight testProcessor)
  /\ lastHeight (result (handle testProcessor (opAt 1 balanceKey))) = 1%N
  /\ sentBatches (trace (handle testProcessor (opAt 1 balanceKey))) = [].
Proof.
  assert (BlockHeight (opAt 1 balanceKey) = 0%N
          \/ BlockHeight (opAt 1 balanceKey) = lastHeight testProcessor) as Hsame
    by (right; reflexivity).
  split; [exact Hsame|].
  destruct (same_height_dispatches_to_owners
              testProcessor (opAt 1 balanceKey) Hsame) as [Hh [_ [Hs _]]].
  split; [exact Hh | exact Hs].
Defined.

Lemma process_error_is_logged_and_dispatch_goes_on_witness :
  nth_error (moduleProcessors testProcessor) 0 = Some failingStub
  /\ OwnsKey failingStub (Key (opAt 1 balanceKey)) = true
  /\ fst (Process failingStub (opAt 1 balanceKey)) = Some "cannot decode"
  /\ processCalls (trace (handle testProcessor (opAt 1 balanceKey)))
     = [(0, opAt 1 balanceKey); (1, opAt 1 balanceKey)].
Proof.
  split; [reflexivity|]. split; [reflexivity|]. split; [reflexivity|].
  exact (proj1 (proj2 (proj2
           (process_error_is_logged_and_dispatch_goes_on
              testProcessor (opAt 1 balanceKey) [] 0 failingStub "cannot decode"
              eq_refl eq_refl eq_refl)))).
Defined.

Lemma flush_keeps_batches_with_non_nil_data_witness :
  BlockHeight (opAt 2 balanceKey) <> lastHeight testProcessor
  /\ BlockHeight (opAt 2 balanceKey) <> 0%N
  /\ exists wb,
      sentBatches (trace (handle testProcessor (opAt 2 balanceKey))) = [wb]
      /\ Forall (fun entry => Data entry <> None) wb.
Proof.
  assert (BlockHeight (opAt 2 balanceKey) <> lastHeight testProcessor) as Hne
    by (vm_compute; discriminate).
  assert (BlockHeight (opAt 2 balanceKey) <> 0%N) as Hnz
    by (vm_compute; discriminate).
  split; [exact Hne|]. split; [exact Hnz|].
  destruct (flush_keeps_batches_with_non_nil_data
              testProcessor (opAt 2 balanceKey) Hne Hnz)
    as [wb [Hs [_ [_ Hall]]]].
  exists wb. split; [exact Hs | exact Hall].
Defined.

(** C4 as stated fails: a module that returns an allocated batch without
    rows gets it published. *)
Lemma empty_batch_is_published :
  ~ (forall wb entry,
        In wb (sentBatches (trace (handle draining (opAt 2 balanceKey)))) ->
        In entry wb -> rowsOf entry <> []).
Proof.
  intros Hnever.
  apply (Hnever [noRows] noRows); [left; reflexivity | left; reflexivity |].
  reflexivity.
Qed.

Lemma published_rows_carry_the_chain_name_witness :
  In (WritebackSend
        [mkWritebackOp "UPSERT balances"
                       (Some [mkTestEntrier "cosmos-hub"; mkTestEntrier "cosmos-hub"])])
     (trace (lifecycle testProcessor [opAt 2 balanceKey]))
  /\ forall entry row,
      In entry [mkWritebackOp "UPSERT balances"
                  (Some [mkTestEntrier "cosmos-hub"; mkTestEntrier "cosmos-hub"])] ->
      In row (rowsOf entry) ->
      exists row0, row = WithChainName "cosmos-hub" row0.
Proof.
  assert (In (WritebackSend
                [mkWritebackOp "UPSERT balances"
                   (Some [mkTestEntrier "cosmos-hub"; mkTestEntrier "cosmos-hub"])])
             (trace (lifecycle testProcessor [opAt 2 balanceKey]))) as Hin
    by (right; right; left; reflexivity).
  split; [exact Hin|].
  exact (proj2 (proj2 (published_rows_carry_the_chain_name
                         testProcessor [opAt 2 balanceKey] _ Hin))).
Defined.

Lemma one_batch_per_height_transition_witness :
  BlockHeight (opAt 2 balanceKey) <> lastHeight testProcessor
  /\ BlockHeight (opAt 2 balanceKey) <> 0%N
  /\ (exists wb, sentBatches (trace (handle testProcessor (opAt 2 balanceKey))) = [wb])
  /\ List.length
       (sentBatches
          (trace (lifecycle testProcessor
                            [opAt 1 balanceKey; opAt 2 balanceKey; opAt 0 accountKey])))
     = 1.
Proof.
  assert (BlockHeight (opAt 2 balanceKey) <> lastHeight testProcessor) as Hne
    by (vm_compute; discriminate).
  assert (BlockHeight (opAt 2 balanceKey) <> 0%N) as Hnz
    by (vm_compute; discriminate).
  split; [exact Hne|]. split; [exact Hnz|].
  destruct (one_batch_per_height_transition
              testProcessor (opAt 2 balanceKey)
              [opAt 1 balanceKey; opAt 2 balanceKey; opAt 0 accountKey] Hne Hnz)
    as [[wb [Hs _]] Hcount].
  split; [exists wb; exact Hs | exact Hcount].
Defined.

(** C3 as stated fails: a height below the watermark lowers it. *)
Lemma watermark_decreases :
  ~ (lastHeight (result (lifecycle emptyProcessor [opAt 5 balanceKey]))
     <= lastHeight (result (lifecycle emptyProcessor
                                      [opAt 5 balanceKey; opAt 3 balanceKey])))%N.
Proof. change (~ (5 <= 3)%N). lia. Qed.

Lemma watermark_follows_received_heights_witness :
  BlockHeight (opAt 5 balanceKey) <> 0%N
  /\ BlockHeight (opAt 5 balanceKey)
     <> lastHeight (result (lifecycle emptyProcessor [opAt 3 balanceKey]))
  /\ ascending (lastHeight emptyProcessor)
               (map BlockHeight ([opAt 3 balanceKey] ++ [opAt 5 balanceKey])) = true
  /\ lastHeight (result (lifecycle emptyProcessor
                                   ([opAt 3 balanceKey] ++ [opAt 5 balanceKey])))
     = 5%N
  /\ (lastHeight (result (lifecycle emptyProcessor [opAt 3 balanceKey]))
      <= lastHeight (result (lifecycle emptyProcessor
                                       ([opAt 3 balanceKey] ++ [opAt 5 balanceKey]))))%N.
Proof.
  assert (BlockHeight (opAt 5 balanceKey) <> 0%N) as Hnz
    by (vm_compute; discriminate).
  assert (BlockHeight (opAt 5 balanceKey)
          <> lastHeight (result (lifecycle emptyProcessor [opAt 3 balanceKey])))
    as Hne by (vm_compute; discriminate).
  split; [exact Hnz|]. split; [exact Hne|]. split; [reflexivity|].
  destruct (watermark_follows_received_heights
              emptyProcessor [opAt 3 balanceKey] (opAt 5 balanceKey))
    as [_ [Hset Hmono]].
  split; [exact (Hset Hnz Hne) | exact (proj1 (Hmono eq_refl))].
Defined.

Lemma SplitStatements_groups_by_arity_witness :
  (Z.pos authRowFields <= 40)%Z
  /\ (exists batches,
         SplitStatements authRowFields 40 (testNeedle "statement") = Some batches
         /\ List.concat (map rowsOf batches) = rowsOf (testNeedle "statement")
         /\ List.length batches = 1)
  /\ (3 < Z.pos authRowFields)%Z
  /\ SplitStatements authRowFields 3 (testNeedle "statement") = None.
Proof.
  assert (Z.pos authRowFields <= 40)%Z as Hfit by (vm_compute; discriminate).
  assert (3 < Z.pos authRowFields)%Z as Hsmall by reflexivity.
  split; [exact Hfit|]. split.
  - destruct (proj1 (SplitStatements_groups_by_arity
                       authRowFields 40 (testNeedle "statement")) Hfit)
      as [batches [Hs [Hrows [_ [Hmul _]]]]].
    exists batches. split; [exact Hs|]. split; [exact Hrows|].
    exact (proj1 (Hmul eq_refl)).
  - split; [exact Hsmall|].
    exact (proj2 (SplitStatements_groups_by_arity
                    authRowFields 3 (testNeedle "statement")) Hsmall).
Defined.

(** * Further properties of the registry and of [New] *)

Section RegistryNames.

Context {R M : Type} {HM : Module R M}.

Lemma AddModule_registers_name (p : Processor M) (m : M) :
  nameRegistered (ModuleName m) (moduleProcessors (snd (AddModule p m))) = true.
Proof.
  unfold AddModule.
  destruct (nameRegistered (ModuleName m) (moduleProcessors p)) eqn:E;
    cbn [snd moduleProcessors]; [exact E|].
  apply nameRegistered_true. exists m. split; [|reflexivity].
  apply in_or_app. right. left. reflexivity.
Qed.

(** X1. [AddModule] keeps the names of the registry pairwise distinct:
    whether it appends the module or refuses it, a registry without two
    modules of one name stays so. *)
Theorem AddModule_keeps_names_distinct (p : Processor M) (m : M) :
  NoDup (map ModuleName (moduleProcessors p)) ->
  NoDup (map ModuleName (moduleProcessors (snd (AddModule p m)))).
Proof.
  intros Hnd. unfold AddModule.
  destruct (nameRegistered (ModuleName m) (moduleProcessors p)) eqn:E;
    cbn [snd moduleProcessors]; [exact Hnd|].
  rewrite map_app. apply NoDup_app; [exact Hnd | |].
  - cbn [map]. constructor; [intros [] | constructor].
  - intros name Hin [<-|[]]. apply in_map_iff in Hin.
    destruct Hin as [em [Hn Hem]].
    exact (proj1 (nameRegistered_false _ _) E em Hem Hn).
Qed.

(** X2. Adding the same module a second time is always refused, with the
    error naming the module, and changes nothing, whatever the first call
    did. *)
Theorem AddModule_twice_is_refused (p : Processor M) (m : M) :
  AddModule (snd (AddModule p m)) m
  = (Some ("cannot add module " ++ ModuleName m ++ " more than one time")%string,
     snd (AddModule p m)).
Proof.
  pose proof (AddModule_registers_name p m) as Hreg.
  unfold AddModule at 1. rewrite Hreg. reflexivity.
Qed.

End RegistryNames.

Section ConstructionOrder.

Context {R M : Type} {HR : DatabaseEntrier R} {HM : Module R M}
        {HS : ProcessorStructs M}.

(** X3. When the processor structs have pairwise distinct names, looking a
    struct up by its own name gives a fresh instance of that very struct. *)
Theorem processorByName_finds_the_struct (k : ProcessorKind) :
  (forall k1 k2, ModuleName (zeroValue k1) = ModuleName (zeroValue k2) -> k1 = k2) ->
  processorByName (ModuleName (zeroValue k)) = inl (withEmptyCaches k).
Proof.
  intros Hinj.
  destruct (processorByName_known (ModuleName (zeroValue k))
                                  (ex_intro _ k eq_refl)) as [k' [Hk' Hp]].
  rewrite Hp. now rewrite (Hinj _ _ Hk').
Qed.

Lemma collectProcessors_first_unknown (pre : list string) (bad : string)
      (post : list string) :
  (forall name, In name pre -> knownName name) ->
  ~ knownName bad ->
  forall mp tableSchemas,
    collectProcessors (pre ++ bad :: post) mp tableSchemas
    = inr ("unkonwn Processor " ++ bad)%string.
Proof.
  intros Hpre Hbad.
  induction pre as [|ep pre IH]; intros mp ts; cbn [app collectProcessors].
  - now rewrite (processorByName_unknown bad Hbad).
  - destruct (processorByName_known ep (Hpre ep (or_introl eq_refl)))
      as [k [_ Hp]]. rewrite Hp.
    apply IH. intros name Hin. apply Hpre. now right.
Qed.

(** X4. [New] stops at the first unknown name of the enabled list: the error
    names that one, whatever stands behind it, the modules built for the
    names before it are dropped, the singleton keeps its value and nothing
    is logged or started. *)
Theorem New_reports_the_first_unknown_name
        (singleton : Processor M) (cfg : Config)
        (pre : list string) (bad : string) (post : list string) :
  ProcessorsEnabled cfg = Some (pre ++ bad :: post) ->
  (forall name, In name pre -> knownName name) ->
  ~ knownName bad ->
  New (R:=R) singleton cfg
  = ([], (singleton, Some ("unkonwn Processor " ++ bad)%string)).
Proof.
  intros Hcfg Hpre Hbad. unfold New, enabledProcessors. rewrite Hcfg.
  now rewrite (collectProcessors_first_unknown pre bad post Hpre Hbad).
Qed.

Lemma builtFrom_names (names : list string) (mps : list M) :
  (forall k, ModuleName (withEmptyCaches k) = ModuleName (zeroValue k)) ->
  builtFrom names mps ->
  map ModuleName mps = names.
Proof.
  intros Hname Hb. induction Hb as [|name mp names mps [k [Hk ->]] _ IH].
  - reflexivity.
  - cbn [map]. now rewrite IH, Hname, Hk.
Qed.

(** X5. When a fresh instance of each struct answers the same
    [ModuleName] as its zero value, the registry built by [New] carries
    the enabled names in order, repeated names included ([New] does not
    look for duplicates), and [AddModule] then refuses every module whose
    name is on the list. *)
Theorem New_registers_the_enabled_names
        (singleton : Processor M) (cfg : Config) (names : list string) :
  (forall k, ModuleName (withEmptyCaches k) = ModuleName (zeroValue k)) ->
  ProcessorsEnabled cfg = Some names ->
  (forall name, In name names -> knownName name) ->
  exists p,
    result (New (R:=R) singleton cfg) = (p, None)
    /\ map ModuleName (moduleProcessors p) = names
    /\ forall m, In (ModuleName m) names ->
                 exists err, AddModule p m = (Some err, p).
Proof.
  intros Hname Hcfg Hknown. unfold New, enabledProcessors. rewrite Hcfg.
  destruct (collectProcessors_all_known names Hknown [] []) as [mps [Hb Hc]].
  rewrite Hc. cbn [app]. eexists. split; [reflexivity|].
  cbn [moduleProcessors].
  pose proof (builtFrom_names names mps Hname Hb) as Hnames.
  split; [exact Hnames|].
  intros m Hin. unfold AddModule. cbn [moduleProcessors].
  assert (nameRegistered (ModuleName m) mps = true) as Hreg.
  { apply nameRegistered_true. rewrite <- Hnames in Hin.
    apply in_map_iff in Hin. destruct Hin as [em [Hn Hem]]. exists em. auto. }
  rewrite Hreg. eexists. reflexivity.
Qed.

End ConstructionOrder.

(** * Further properties of the lifecycle *)

Lemma last_cons_default (l : list N) :
  forall x d, last (x :: l) d = last l x.
Proof.
  induction l as [|y l IH]; intros x d; [reflexivity|].
  change (last (x :: y :: l) d) with (last (y :: l) d).
  now rewrite !IH.
Qed.

Lemma watermark_lastNonzero (heights : list N) :
  forall h, watermark h heights = lastNonzero h heights.
Proof.
  unfold lastNonzero.
  induction heights as [|x rest IH]; intros h; [reflexivity|].
  cbn [watermark filter].
  destruct (N.eqb_spec x 0) as [->|Hx]; cbn [negb].
  - rewrite andb_false_r. apply IH.
  - rewrite andb_true_r, last_cons_default.
    destruct (N.eqb_spec x h) as [->|Hxh]; cbn [negb]; apply IH.
Qed.

Section LifecycleFacts.

Context {R M : Type} {HR : DatabaseEntrier R} {HM : Module R M}.

Lemma flushCalls_app (t1 t2 : list (Event R)) :
  flushCalls (t1 ++ t2) = flushCalls t1 ++ flushCalls t2.
Proof.
  induction t1 as [|e t1 IH]; simpl; [reflexivity|].
  destruct e; simpl; rewrite IH; reflexivity.
Qed.

Lemma flushCalls_flushes (l : list nat) :
  flushCalls (R:=R) (map FlushCacheCall l) = l.
Proof. induction l as [|i l IH]; simpl; [|rewrite IH]; reflexivity. Qed.

Lemma handle_registry (p : Processor M) (data : TraceOperation) :
  moduleProcessors (result (handle (R:=R) p data))
  = processedBy data (if heightChanged p data
                      then flushed (moduleProcessors p)
                      else moduleProcessors p)
  /\ migrations (result (handle (R:=R) p data)) = migrations p.
Proof.
  destruct (heightChanged p data) eqn:Hc.
  - destruct (handle_changed p data Hc) as [_ ->]. split; reflexivity.
  - destruct (handle_unchanged p data Hc) as [_ ->]. split; reflexivity.
Qed.

Lemma handle_registry_length (p : Processor M) (data : TraceOperation) :
  List.length (moduleProcessors (result (handle (R:=R) p data)))
  = List.length (moduleProcessors p).
Proof.
  destruct (handle_registry p data) as [-> _]. unfold processedBy, flushed.
  destruct (heightChanged p data); now rewrite !length_map.
Qed.

Lemma handle_flushCalls (p : Processor M) (data : TraceOperation) :
  flushCalls (trace (handle (R:=R) p data))
  = if heightChanged p data
    then seq 0 (List.length (moduleProcessors p))
    else [].
Proof.
  destruct (heightChanged p data) eqn:Hc.
  - destruct (handle_changed p data Hc) as [Ht _]. rewrite Ht.
    rewrite !flushCalls_app, flushCalls_flushes, dispatch_flushCalls.
    cbn [flushCalls app]. now rewrite app_nil_r.
  - destruct (handle_unchanged p data Hc) as [Ht _]. rewrite Ht.
    apply dispatch_flushCalls.
Qed.

Lemma handle_processCalls (p : Processor M) (data : TraceOperation) :
  processCalls (trace (handle (R:=R) p data))
  = map (fun j => (j, data))
        (ownersFrom 0 (Key data)
                    (if heightChanged p data
                     then flushed (moduleProcessors p)
                     else moduleProcessors p)).
Proof.
  destruct (heightChanged p data) eqn:Hc.
  - destruct (handle_changed p data Hc) as [Ht _]. rewrite Ht.
    rewrite !processCalls_app, processCalls_flushes. cbn [processCalls app].
    apply dispatch_processCalls.
  - destruct (handle_unchanged p data Hc) as [Ht _]. rewrite Ht.
    apply dispatch_processCalls.
Qed.

Lemma ownersFrom_length (key : list byte) (mps : list M) :
  forall i, List.length (ownersFrom i key mps) <= List.length mps.
Proof.
  induction mps as [|mp rest IH]; intros i; cbn [ownersFrom List.length].
  - lia.
  - specialize (IH (S i)). destruct (OwnsKey mp key); cbn [List.length]; lia.
Qed.

Lemma ownersFrom_none (key : list byte) (mps : list M) :
  (forall mp, In mp mps -> OwnsKey mp key = false) ->
  forall i, ownersFrom i key mps = [].
Proof.
  induction mps as [|mp rest IH]; intros Hnone i; cbn [ownersFrom].
  - reflexivity.
  - rewrite (Hnone mp (or_introl eq_refl)). apply IH.
    intros mp' Hin. apply Hnone. now right.
Qed.

Lemma dispatch_none (data : TraceOperation) (mps : list M) :
  (forall mp, In mp mps -> OwnsKey mp (Key data) = false) ->
  forall i, dispatch (R:=R) data i mps = ([], mps).
Proof.
  induction mps as [|mp rest IH]; intros Hnone i; cbn [dispatch].
  - reflexivity.
  - rewrite (Hnone mp (or_introl eq_refl)). cbn [negb].
    rewrite IH by (intros mp' Hin; apply Hnone; now right).
    reflexivity.
Qed.

(** X6. A run of the loop never touches the configuration it was built
    with: the chain name, the migrations and the number of registered
    modules are the same after any sequence of operations. *)
Theorem lifecycle_keeps_configuration (p : Processor M) (ops : list TraceOperation) :
  chainName (result (lifecycle (R:=R) p ops)) = chainName p
  /\ migrations (result (lifecycle (R:=R) p ops)) = migrations p
  /\ List.length (moduleProcessors (result (lifecycle (R:=R) p ops)))
     = List.length (moduleProcessors p).
Proof.
  revert p. induction ops as [|data rest IH]; intros p.
  - repeat split.
  - destruct (lifecycle_cons p data rest) as [_ ->].
    destruct (IH (result (handle (R:=R) p data))) as [Hc [Hm Hl]].
    rewrite Hc, Hm, Hl, handle_chainName, handle_registry_length.
    destruct (handle_registry p data) as [_ ->]. repeat split.
Qed.

(** X7. After a run the watermark is the height of the most recent
    operation that carried a nonzero height, and the starting watermark
    when no operation did. *)
Theorem lifecycle_watermark_is_last_nonzero_height
        (p : Processor M) (ops : list TraceOperation) :
  lastHeight (result (lifecycle (R:=R) p ops))
  = lastNonzero (lastHeight p) (map BlockHeight ops).
Proof. rewrite lifecycle_lastHeight. apply watermark_lastNonzero. Qed.

(** X8. An operation at the current height (or at height 0) whose key no
    registered module owns is dropped without a trace: no call, no log
    line, no send, and the processor is left exactly as it was. *)
Theorem unowned_operation_is_dropped (p : Processor M) (data : TraceOperation) :
  BlockHeight data = 0%N \/ BlockHeight data = lastHeight p ->
  (forall mp, In mp (moduleProcessors p) -> OwnsKey mp (Key data) = false) ->
  handle (R:=R) p data = ([], p).
Proof.
  intros Hsame Hnone. apply heightChanged_false in Hsame.
  unfold handle, flushOnNewHeight. rewrite Hsame.
  unfold bind, ret. cbn [fst snd app].
  rewrite (dispatch_none data (moduleProcessors p) Hnone 0).
  destruct p. reflexivity.
Qed.

(** X9. Over a run [FlushCache] is called once on every registered module,
    in registry order, for each height transition and never otherwise: the
    flush calls of the trace are the positions 0, 1, ..., n-1 repeated once
    per transition. *)
Theorem lifecycle_flushes_once_per_transition
        (p : Processor M) (ops : list TraceOperation) :
  flushCalls (trace (lifecycle (R:=R) p ops))
  = List.concat (repeat (seq 0 (List.length (moduleProcessors p)))
                        (transitions (lastHeight p) (map BlockHeight ops))).
Proof.
  revert p. induction ops as [|data rest IH]; intros p; [reflexivity|].
  destruct (lifecycle_cons p data rest) as [Ht _]. rewrite Ht.
  rewrite flushCalls_app, IH, handle_flushCalls, handle_lastHeight,
    handle_registry_length.
  cbn [map transitions]. fold (heightChanged p data).
  destruct (heightChanged p data); reflexivity.
Qed.

(** X10. Operations reach the modules in the order they were received:
    the [Process] calls of a run are, for the first, second, ... received
    operation in turn, one call per registry position whose module owns
    the key of that operation, in increasing position; ownership is asked
    of the registry as the operations before it left it, flushed when the
    operation changes the height. *)
Theorem lifecycle_processes_in_arrival_order
        (p : Processor M) (ops : list TraceOperation) :
  processCalls (trace (lifecycle (R:=R) p ops))
  = List.concat
      (map (fun k =>
              match nth_error ops k with
              | None => []
              | Some data =>
                  let q := result (lifecycle (R:=R) p (firstn k ops)) in
                  let mps := if heightChanged q data
                             then flushed (moduleProcessors q)
                             else moduleProcessors q in
                  map (fun j => (j, data)) (ownersFrom 0 (Key data) mps)
              end)
           (seq 0 (List.length ops))).
Proof.
  revert p. induction ops as [|data rest IH]; intros p; [reflexivity|].
  destruct (lifecycle_cons p data rest) as [Ht _]. rewrite Ht.
  rewrite processCalls_app, handle_processCalls, IH.
  cbn [List.length seq map List.concat nth_error firstn].
  f_equal. rewrite <- seq_shift, map_map. reflexivity.
Qed.

Lemma empty_registry_sends_only_empty_batches
        (p : Processor M) (ops : list TraceOperation) :
  moduleProcessors p = [] ->
  processCalls (trace (lifecycle (R:=R) p ops)) = []
  /\ flushCalls (trace (lifecycle (R:=R) p ops)) = []
  /\ Forall (fun wb => wb = []) (sentBatches (trace (lifecycle (R:=R) p ops))).
Proof.
  revert p. induction ops as [|data rest IH]; intros p Hempty.
  - repeat split. constructor.
  - assert (moduleProcessors (result (handle (R:=R) p data)) = []) as Hnext.
    { apply length_zero_iff_nil. now rewrite handle_registry_length, Hempty. }
    destruct (IH _ Hnext) as [Hp [Hf Hs]].
    destruct (lifecycle_cons p data rest) as [Ht _]. rewrite Ht.
    rewrite processCalls_app, flushCalls_app, sentBatches_app, Hp, Hf.
    rewrite handle_processCalls, handle_flushCalls, handle_sentBatches, Hempty.
    unfold flushed, flushResults. cbn [map flat_map filter List.length seq].
    destruct (heightChanged p data); cbn [ownersFrom map app];
      repeat split; auto.
Qed.

End LifecycleFacts.

Section EmptyList.

Context {R M : Type} {HR : DatabaseEntrier R} {HM : Module R M}
        {HS : ProcessorStructs M}.

(** X11. An enabled list that is allocated but empty is not replaced by the
    defaults (only the nil list is): [New] succeeds with no module and no
    migration, and the lifecycle it starts never calls [Process] or
    [FlushCache] and sends nothing but empty aggregates. *)
Theorem New_with_empty_list_registers_nothing
        (singleton : Processor M) (cfg : Config) (ops : list TraceOperation) :
  ProcessorsEnabled cfg = Some [] ->
  exists p,
    New (R:=R) singleton cfg = ([InfowInitialized []; GoLifecycle], (p, None))
    /\ moduleProcessors p = []
    /\ DatabaseMigrations p = []
    /\ processCalls (trace (lifecycle (R:=R) p ops)) = []
    /\ flushCalls (trace (lifecycle (R:=R) p ops)) = []
    /\ Forall (fun wb => wb = []) (sentBatches (trace (lifecycle (R:=R) p ops))).
Proof.
  intros Hcfg. unfold New, enabledProcessors. rewrite Hcfg.
  cbn [collectProcessors]. eexists. split; [reflexivity|].
  split; [reflexivity|]. split; [reflexivity|].
  apply empty_registry_sends_only_empty_batches. reflexivity.
Qed.

End EmptyList.

(** * The statements of the balances table *)

Lemma length_append (s1 s2 : string) :
  String.length (s1 ++ s2)%string = String.length s1 + String.length s2.
Proof. induction s1 as [|c s1 IH]; simpl; [|rewrite IH]; reflexivity. Qed.

Lemma append_inv_head (s a b : string) :
  (s ++ a)%string = (s ++ b)%string -> a = b.
Proof.
  induction s as [|c s IH]; simpl; intros Heq; [exact Heq|].
  injection Heq as Heq. exact (IH Heq).
Qed.

Lemma append_inv_tail (s : string) :
  forall a b, (a ++ s)%string = (b ++ s)%string -> a = b.
Proof.
  induction a as [|c a IH]; intros [|c' b] Heq; simpl in Heq.
  - reflexivity.
  - apply (f_equal String.length) in Heq. simpl in Heq.
    rewrite length_append in Heq. lia.
  - apply (f_equal String.length) in Heq. simpl in Heq.
    rewrite length_append in Heq. lia.
  - injection Heq as -> Heq. now rewrite (IH b Heq).
Qed.

Lemma Sprintf_injective (before after a b : string) :
  tables.Sprintf before after a = tables.Sprintf before after b -> a = b.
Proof.
  unfold tables.Sprintf. intros Heq.
  apply append_inv_head in Heq. exact (append_inv_tail after a b Heq).
Qed.

(** X12. Tables with different names never share a statement: the
    CreateTable, Insert, Upsert and Delete texts of one differ from those
    of the other, the name being copied into the text as it is. *)
Theorem balances_statements_differ_by_table (r1 r2 : tables.BalancesTable) :
  r1 <> r2 ->
  tables.CreateTable r1 <> tables.CreateTable r2
  /\ tables.Insert r1 <> tables.Insert r2
  /\ tables.Upsert r1 <> tables.Upsert r2
  /\ tables.Delete r1 <> tables.Delete r2.
Proof.
  destruct r1 as [n1], r2 as [n2].
  unfold tables.CreateTable, tables.Insert, tables.Upsert, tables.Delete.
  cbn [tables.tableName].
  intros Hne; repeat split; intros Heq; apply Sprintf_injective in Heq;
    apply Hne; now subst.
Qed.

(** * Modules side by side, and the block log *)

Section ModulesAndLog.

Context {R M : Type} {HR : DatabaseEntrier R} {HM : Module R M}.

(** X13. One received operation moves every module on its own and in place:
    the module at each registry position becomes the old module at that
    position, flushed when the height changed, and then, when it owns the
    key (asked after the flush), having processed the operation; no module
    depends on another or changes position. *)
Theorem handle_steps_each_module_in_place
        (p : Processor M) (data : TraceOperation) (i : nat) :
  nth_error (moduleProcessors (result (handle (R:=R) p data))) i
  = option_map
      (fun mp =>
         let mp1 := if heightChanged p data then snd (FlushCache mp) else mp in
         if OwnsKey mp1 (Key data) then snd (Process mp1 data) else mp1)
      (nth_error (moduleProcessors p) i).
Proof.
  destruct (handle_registry p data) as [-> _]. unfold processedBy, flushed.
  destruct (heightChanged p data); rewrite !nth_error_map;
    destruct (nth_error (moduleProcessors p) i); reflexivity.
Qed.






End ModulesAndLog.

(** * The further properties on the fixtures *)

Lemma AddModule_keeps_names_distinct_witness :
  NoDup (map ModuleName (moduleProcessors testProcessor))
  /\ NoDup (map ModuleName
                (moduleProcessors (snd (AddModule testProcessor delegationsStub)))).
Proof.
  assert (NoDup (map ModuleName (moduleProcessors testProcessor))) as Hnd.
  { constructor; [intros [Heq|[]]; discriminate|].
    constructor; [intros []|constructor]. }
  split; [exact Hnd|].
  exact (AddModule_keeps_names_distinct testProcessor delegationsStub Hnd).
Defined.

Lemma processorByName_finds_the_struct_witness :
  (forall k1 k2 : ProcessorKind,
      ModuleName (zeroValue (M:=stubModule) k1) = ModuleName (zeroValue k2) ->
      k1 = k2)
  /\ processorByName (ModuleName (zeroValue (M:=stubModule) delegationsProcessor))
     = inl (withEmptyCaches delegationsProcessor).
Proof.
  assert (forall k1 k2 : ProcessorKind,
             ModuleName (zeroValue (M:=stubModule) k1) = ModuleName (zeroValue k2) ->
             k1 = k2) as Hinj
    by (intros k1 k2; destruct k1, k2; intros Heq;
        (reflexivity || discriminate Heq)).
  split; [exact Hinj|].
  exact (processorByName_finds_the_struct delegationsProcessor Hinj).
Defined.

Lemma New_reports_the_first_unknown_name_witness :
  (forall name, In name ["bank"] -> knownName (M:=stubModule) name)
  /\ ~ knownName (M:=stubModule) "staking"
  /\ New emptyProcessor
         (mkConfig "cosmos-hub" (Some (["bank"] ++ "staking" :: ["gov"])))
     = ([], (emptyProcessor, Some "unkonwn Processor staking")).
Proof.
  assert (forall name, In name ["bank"] -> knownName (M:=stubModule) name)
    as Hpre by (intros name [<-|[]]; exists bankProcessor; reflexivity).
  assert (~ knownName (M:=stubModule) "staking") as Hbad
    by (intros [k Hk]; destruct k; discriminate Hk).
  split; [exact Hpre|]. split; [exact Hbad|].
  exact (New_reports_the_first_unknown_name
           emptyProcessor
           (mkConfig "cosmos-hub" (Some (["bank"] ++ "staking" :: ["gov"])))
           ["bank"] "staking" ["gov"] eq_refl Hpre Hbad).
Defined.

Lemma New_registers_the_enabled_names_witness :
  (forall k, ModuleName (withEmptyCaches (M:=stubModule) k)
             = ModuleName (zeroValue k))
  /\ (forall name, In name ["bank"; "auth"; "bank"] ->
                   knownName (M:=stubModule) name)
  /\ exists p,
      result (New emptyProcessor
                  (mkConfig "cosmos-hub" (Some ["bank"; "auth"; "bank"])))
      = (p, None)
      /\ map ModuleName (moduleProcessors p) = ["bank"; "auth"; "bank"].
Proof.
  assert (forall k, ModuleName (withEmptyCaches (M:=stubModule) k)
                    = ModuleName (zeroValue k)) as Hname
    by (intros k; reflexivity).
  assert (forall name, In name ["bank"; "auth"; "bank"] ->
                       knownName (M:=stubModule) name) as Hknown.
  { intros name [<-|[<-|[<-|[]]]].
    - exists bankProcessor. reflexivity.
    - exists authProcessor. reflexivity.
    - exists bankProcessor. reflexivity. }
  split; [exact Hname|]. split; [exact Hknown|].
  destruct (New_registers_the_enabled_names
              emptyProcessor
              (mkConfig "cosmos-hub" (Some ["bank"; "auth"; "bank"]))
              ["bank"; "auth"; "bank"] Hname eq_refl Hknown)
    as [p [Hr [Hn _]]].
  exists p. split; [exact Hr | exact Hn].
Defined.

Lemma unowned_operation_is_dropped_witness :
  (BlockHeight (opAt 1 accountKey) = 0%N
   \/ BlockHeight (opAt 1 accountKey) = lastHeight draining)
  /\ (forall mp, In mp (moduleProcessors draining) ->
                 OwnsKey mp (Key (opAt 1 accountKey)) = false)
  /\ handle draining (opAt 1 accountKey) = ([], draining).
Proof.
  assert (BlockHeight (opAt 1 accountKey) = 0%N
          \/ BlockHeight (opAt 1 accountKey) = lastHeight draining) as Hsame
    by (right; reflexivity).
  assert (forall mp, In mp (moduleProcessors draining) ->
                     OwnsKey mp (Key (opAt 1 accountKey)) = false) as Hnone
    by (intros mp [<-|[]]; reflexivity).
  split; [exact Hsame|]. split; [exact Hnone|].
  exact (unowned_operation_is_dropped draining (opAt 1 accountKey) Hsame Hnone).
Defined.

Lemma New_with_empty_list_registers_nothing_witness :
  ProcessorsEnabled (mkConfig "cosmos-hub" (Some [])) = Some []
  /\ exists p : Processor stubModule,
      New emptyProcessor (mkConfig "cosmos-hub" (Some []))
      = ([InfowInitialized []; GoLifecycle], (p, None))
      /\ sentBatches
           (trace (lifecycle p [opAt 1 balanceKey; opAt 2 balanceKey]))
         = [[]; []].
Proof.
  split; [reflexivity|].
  destruct (New_with_empty_list_registers_nothing
              emptyProcessor (mkConfig "cosmos-hub" (Some []))
              [opAt 1 balanceKey; opAt 2 balanceKey] eq_refl)
    as [p [Hnew [Hreg _]]].
  exists p. split; [exact Hnew|].
  destruct p as [mig h cn mps]. cbn [moduleProcessors] in Hreg. subst mps.
  injection Hnew as _ Hh _. subst h. reflexivity.
Defined.

Lemma balances_statements_differ_by_table_witness :
  tables.NewBalancesTable "balances" <> tables.NewBalancesTable "balances_v2"
  /\ tables.Upsert (tables.NewBalancesTable "balances")
     <> tables.Upsert (tables.NewBalancesTable "balances_v2").
Proof.
  assert (tables.NewBalancesTable "balances"
          <> tables.NewBalancesTable "balances_v2") as Hne
    by (intros Heq; discriminate Heq).
  split; [exact Hne|].
  exact (proj1 (proj2 (proj2 (balances_statements_differ_by_table _ _ Hne)))).
Defined.
